(** * VSplitter: interval resolution and job planning of [main.py]

    A shallow embedding of [fix_intervals], [build_clip] and the planning
    loop of [main] (src/main.py), with the Python list objects that
    [fix_intervals] mutates kept in an explicit store.

    - A JSON array loaded by [json.load] is a Python list object.  The
      interval of a clip is such an object; [interval.insert(0, x)] changes
      it in place.  The store [heap] maps a reference to the current
      contents of the list object it denotes, and a clip is a pair of a
      name and a reference to its interval.
    - Exceptions are an error result ([Raise]); the assertion messages are
      kept as structured values carrying the interpolated data.
    - The dictionary [config] is a finite map from option names to values. *)

From Stdlib Require Import Ascii.
From stdpp Require Import gmap strings list fin_maps.

Local Open Scope string_scope.
Local Open Scope nat_scope.
Local Open Scope list_scope.

(** ** Exceptions and fallible computations *)

(** The two assertion messages of main.py, with the values their f-strings
    interpolate. *)
Inductive assertion_msg : Type :=
  | ConflictInInterval (interval : list string) (name : string)
      (* line 15: f'Conflict in interval {interval}, file: {name}' *)
  | IncompatibleIntervalLength (len : nat) (interval : list string) (name : string)
      (* line 59: f'Incompatible interval length {len(interval)} -> {interval}, file: {name}' *).

Inductive exn : Type :=
  | AssertionError (msg : assertion_msg)
  | ValueError      (* [start, end = interval] on a list whose length is not 2 *)
  | IndexError      (* a list index out of range *)
  | DanglingRef     (* a reference that denotes no object; Python has none *)
  | FileNotFoundError  (* [os.makedirs] on a path that cannot be made *)
  | OSError (what : string)  (* any other failure of [os.makedirs] *).

Inductive result (A : Type) : Type :=
  | Ok (a : A)
  | Raise (e : exn).
Arguments Ok {A} a.
Arguments Raise {A} e.

#[export] Instance result_ret : MRet result := fun _ a => Ok a.
#[export] Instance result_bind : MBind result := fun _ _ f r =>
  match r with
  | Ok a => f a
  | Raise e => Raise e
  end.

(** ** The store of list objects *)

Abbreviation loc := nat.
Abbreviation heap := (gmap nat (list string)).

(** A clip as [json.load] delivers it: [[name, interval]], the interval
    being a reference to a list object.  The assertion of line 12
    ([len(split) == 2]) holds for every value of this type. *)
Abbreviation clip := (string * loc)%type.

Definition deref (h : heap) (l : loc) : result (list string) :=
  match h !! l with
  | Some v => Ok v
  | None => Raise DanglingRef
  end.

(** [xs[i]] for a non-negative [i]. *)
Definition index {A : Type} (xs : list A) (i : nat) : result A :=
  match xs !! i with
  | Some x => Ok x
  | None => Raise IndexError
  end.

(** [xs[-1]]. *)
Definition index_last {A : Type} (xs : list A) : result A :=
  match last xs with
  | Some x => Ok x
  | None => Raise IndexError
  end.

(** [0 < len(interval) < 3]. *)
Definition length_ok (interval : list string) : bool :=
  (0 <? length interval) && (length interval <? 3).

(** ** [fix_intervals] (main.py, lines 8-27) *)

(** The body of the loop for the clip [split] at position [i] (lines 14-25).
    [clip_ranges] is the whole list; the loop only runs when it is not
    empty, so [length clip_ranges - 1] is Python's [len(clip_ranges)-1].
    The assertion of line 12 has no counterpart here: it can fail only for
    an entry that is not a [[name, interval]] pair, and a [clip] is one. *)
Definition fix_step (clip_ranges : list clip) (i : nat) (split : clip)
    (h : heap) : result heap :=
  let '(name, interval) := split in
  iv ← deref h interval;
  if negb (length_ok iv) then
    Raise (AssertionError (ConflictInInterval iv name))
  else if length iv =? 1 then
    if i =? 0 then
      Ok (<[interval := "00:00:00" :: iv]> h)
    else if i =? length clip_ranges - 1 then
      Ok h
    else
      '(_, prev_interval) ← index clip_ranges (i - 1);
      piv ← deref h prev_interval;
      prev_end ← index_last piv;
      Ok (<[interval := prev_end :: iv]> h)
  else Ok h.

(** [for i, split in enumerate(clip_ranges)], from position [i] over the
    clips [rest] still to visit. *)
Fixpoint fix_loop (clip_ranges : list clip) (i : nat) (rest : list clip)
    (h : heap) : result heap :=
  match rest with
  | [] => Ok h
  | split :: rest' =>
      h' ← fix_step clip_ranges i split h;
      fix_loop clip_ranges (S i) rest' h'
  end.

(** The call returns its argument, the same list of the same references,
    next to the store as the loop left it. *)
Definition fix_intervals (clip_ranges : list clip) (h : heap)
    : result (heap * list clip) :=
  h' ← fix_loop clip_ranges 0 clip_ranges h;
  Ok (h', clip_ranges).

(** ** The external tool invocation of [build_clip] (lines 29-31) *)

(** [FFmpeg().option(...).input(...).output(path, options).execute()]:
    the global options, the input file, and the output file with its
    options. *)
Record invocation : Type := Invocation {
  global_options : list string;
  input_path : string;
  output_path : string;
  output_options : gmap string string
}.

(** The invocation that the coroutine [build_clip(...)] executes once it
    is scheduled. *)
Definition build_clip (source_path file_output_path : string)
    (config : gmap string string) : invocation :=
  {| global_options := ["y"];
     input_path := source_path;
     output_path := file_output_path;
     output_options := config |}.

(** ** Strings *)

(** Truth value of a Python string: the empty string is false. *)
Definition truthy (s : string) : bool :=
  match s with
  | EmptyString => false
  | String _ _ => true
  end.

(** [s.split(sep)] for a one-character separator. *)
Fixpoint str_split (sep : Ascii.ascii) (s : string) : list string :=
  match s with
  | EmptyString => [EmptyString]
  | String c r =>
      if Ascii.eqb c sep then EmptyString :: str_split sep r
      else match str_split sep r with
           | x :: xs => String c x :: xs
           | [] => [String c EmptyString]
           end
  end.

(** [source_path.split('.')[-1]] (line 51). *)
Definition source_ext_of (source_path : string) : string :=
  default EmptyString (last (str_split "."%char source_path)).

(** [posixpath.join(a, b)]: what [os.path.join] is on a POSIX platform,
    for two components. *)
Definition posix_join (a b : string) : string :=
  if String.prefix "/" b then b
  else if String.eqb a "" || String.prefix "/" (String.rev a) then a +:+ b
  else a +:+ "/" +:+ b.

(** ** The planning loop of [main] (lines 48-77) *)

(** Lines 67-71: the locals [start] and [end] for the clip at position [i]
    of [n] clips.  An open end is the empty string. *)
Definition bounds (n i : nat) (interval : list string)
    : result (string * string) :=
  if (i =? n - 1) && (length interval =? 1) then
    start ← index interval 0;
    Ok (start, EmptyString)
  else
    match interval with
    | [start; end_] => Ok (start, end_)
    | _ => Raise ValueError
    end.

(** Lines 61 and 73-75: the option dictionary. *)
Definition make_config (start end_ : string) : gmap string string :=
  let config : gmap string string :=
    <["codec:a" := "copy"]> (<["codec:v" := "copy"]> ∅) in
  let config := <["ss" := start]> config in
  if truthy end_ then <["to" := end_]> config else config.

Section Planning.

(** [os.path.join] of the running platform, for two components. *)
Variable os_path_join : string → string → string.

(** [os.makedirs(name, exist_ok=True)] on the file system of the run, for
    a [name] that is not empty: [None] when the call returns, and the
    [OSError] it raises otherwise. *)
Variable os_mkdirs : string → option exn.

(** [os.makedirs(name, exist_ok=True)] (line 46).  For the empty name the
    call raises [FileNotFoundError] on every file system: [mkdir('')]
    fails, and [''] is no directory. *)
Definition os_makedirs (name : string) : result unit :=
  if String.eqb name "" then Raise FileNotFoundError
  else match os_mkdirs name with
       | None => Ok tt
       | Some e => Raise e
       end.

(** The body of the inner loop (lines 58-77) for the clip [split] at
    position [i]; [tasks] is the list that [tasks.append] extends. *)
Definition plan_step (output_dir source_path source_ext : string)
    (clip_ranges : list clip) (i : nat) (split : clip) (h : heap)
    (tasks : list invocation) : result (list invocation) :=
  let '(name, interval) := split in
  iv ← deref h interval;
  if negb (length_ok iv) then
    Raise (AssertionError (IncompatibleIntervalLength (length iv) iv name))
  else
    let file_name := name +:+ "." +:+ source_ext in
    let file_output_path := os_path_join output_dir file_name in
    '(start, end_) ← bounds (length clip_ranges) i iv;
    Ok (tasks ++ [build_clip source_path file_output_path
                    (make_config start end_)]).

Fixpoint plan_loop (output_dir source_path source_ext : string)
    (clip_ranges : list clip) (i : nat) (rest : list clip) (h : heap)
    (tasks : list invocation) : result (list invocation) :=
  match rest with
  | [] => Ok tasks
  | split :: rest' =>
      tasks' ← plan_step output_dir source_path source_ext
                 clip_ranges i split h tasks;
      plan_loop output_dir source_path source_ext clip_ranges (S i)
        rest' h tasks'
  end.

(** One entry of [splits_config['source_files']]. *)
Record source : Type := Source {
  path : string;
  clip_ranges : list clip
}.

(** The body of the outer loop (lines 49-77) for one source file. *)
Definition plan_source (output_dir : string) (src : source) (h : heap)
    (tasks : list invocation) : result (heap * list invocation) :=
  let source_path := path src in
  let source_ext := source_ext_of source_path in
  '(h', clip_ranges) ← fix_intervals (clip_ranges src) h;
  tasks' ← plan_loop output_dir source_path source_ext clip_ranges 0
             clip_ranges h' tasks;
  Ok (h', tasks').

(** [for source in splits_config['source_files']] (line 48). *)
Fixpoint plan_sources (output_dir : string) (sources : list source)
    (h : heap) (tasks : list invocation)
    : result (heap * list invocation) :=
  match sources with
  | [] => Ok (h, tasks)
  | src :: sources' =>
      '(h', tasks') ← plan_source output_dir src h tasks;
      plan_sources output_dir sources' h' tasks'
  end.

(** [main] from line 45 up to the call of [asyncio.gather] on line 79, on
    the configuration that [json.load] has returned on line 43 (lines
    34-43 have returned: [ensure_ffmpeg] has found the binary and the file
    has been read).  The output directory is made, then the clips of every
    source file are planned.  The result is the list of coroutines handed
    to [asyncio.gather], or the exception that leaves [main] before that
    line is reached. *)
Definition main (output_dir : string) (source_files : list source)
    (h : heap) : result (list invocation) :=
  _ ← os_makedirs output_dir;
  '(_, tasks) ← plan_sources output_dir source_files h [];
  Ok tasks.

(** The external tool invocations started by a run: coroutines run only
    once [asyncio.gather] schedules them, so a run that raises before
    line 79 starts none. *)
Definition launched (r : result (list invocation)) : list invocation :=
  match r with
  | Ok tasks => tasks
  | Raise _ => []
  end.

End Planning.

(** ** Predicates on clips and stores *)

(** The clip's interval holds one or two timestamps. *)
Definition good (h : heap) (c : clip) : Prop :=
  ∃ iv, h !! c.2 = Some iv ∧ length_ok iv = true.

(** The clip's interval holds no timestamp, or three or more. *)
Definition offending (h : heap) (c : clip) : Prop :=
  ∃ iv, h !! c.2 = Some iv ∧ length_ok iv = false.

(** The clip at position [j] of [n] has both timestamps, or is a last,
    not first, clip with one. *)
Definition settled (n j : nat) (h : heap) (c : clip) : Prop :=
  ∃ iv, h !! c.2 = Some iv ∧
        (length iv = 2 ∨ (length iv = 1 ∧ j = n - 1 ∧ j ≠ 0)).

(** The last timestamp of the clip at position [k], if there is one. *)
Definition end_of (clip_ranges : list clip) (h : heap) (k : nat)
    : option string :=
  match clip_ranges !! k with
  | Some (_, l) => match h !! l with Some iv => last iv | None => None end
  | None => None
  end.

(** What the loop body of [fix_intervals] leaves in the interval [iv] of
    the clip at position [j] of [n], [prev_end] being the last timestamp of
    the clip before it. *)
Definition fixed (n j : nat) (prev_end : option string) (iv : list string)
    : list string :=
  if length iv =? 1 then
    if j =? 0 then "00:00:00" :: iv
    else if j =? n - 1 then iv
    else default "" prev_end :: iv
  else iv.

(** Every object of [h] is the same in [h'], or held one or two timestamps
    and still does. *)
Definition grows (h h' : heap) : Prop :=
  ∀ l, h' !! l = h !! l ∨
       ∃ a b, h !! l = Some a ∧ h' !! l = Some b ∧
              length_ok a = true ∧ length_ok b = true.

(** The clips of [clip_ranges] before position [i] are settled. *)
Definition settled_upto (clip_ranges : list clip) (i : nat) (h : heap) : Prop :=
  ∀ j c, j < i → clip_ranges !! j = Some c →
         settled (length clip_ranges) j h c.

(** Every clip of the sequence holds one or two timestamps. *)
Definition in_range (cr : list clip) (h : heap) : Prop :=
  ∀ c, c ∈ cr → good h c.

(** The clips hold one or two timestamps each, and no two of them share
    their interval object: [json.load] builds a list object of its own for
    each array of the configuration file. *)
Definition well_formed (cr : list clip) (h : heap) : Prop :=
  NoDup cr.*2 ∧ in_range cr h.

(** The store [h'] holds the intervals of [cr] as [fix_intervals] leaves
    them, starting from [h]. *)
Definition resolved_from (cr : list clip) (h h' : heap) : Prop :=
  (∀ l, l ∉ cr.*2 → h' !! l = h !! l) ∧
  (∀ j nm l iv, cr !! j = Some (nm, l) → h !! l = Some iv →
     h' !! l = Some (fixed (length cr) j (end_of cr h' (j - 1)) iv)).

(** [well_formed], computed. *)
Definition well_formedb (cr : list clip) (h : heap) : bool :=
  bool_decide (NoDup cr.*2) &&
  forallb (λ c : clip,
             match h !! c.2 with
             | Some iv => length_ok iv
             | None => false
             end) cr.

(** The job planned by lines 61-77 for a clip named [nm] whose locals are
    [start] and [end_]. *)
Definition job_of (os_path_join : string → string → string)
    (output_dir source_path source_ext nm start end_ : string) : invocation :=
  build_clip source_path
    (os_path_join output_dir (nm +:+ "." +:+ source_ext))
    (make_config start end_).

(** Every reference of the configuration denotes an object. *)
Definition valid_refs (h : heap) (sources : list source) : Prop :=
  ∀ src c, src ∈ sources → c ∈ clip_ranges src → is_Some (h !! c.2).

(** [valid_refs], computed. *)
Definition valid_refsb (h : heap) (sources : list source) : bool :=
  forallb (λ src : source,
             forallb (λ c : clip, bool_decide (is_Some (h !! c.2)))
               (clip_ranges src)) sources.

(** ** Basic facts *)

Lemma length_ok_spec (iv : list string) :
  length_ok iv = true ↔ length iv = 1 ∨ length iv = 2.
Proof.
  unfold length_ok. rewrite andb_true_iff, !Nat.ltb_lt. lia.
Qed.

Lemma length_ok_false (iv : list string) :
  length_ok iv = false ↔ length iv = 0 ∨ 3 ≤ length iv.
Proof.
  unfold length_ok. rewrite andb_false_iff, !Nat.ltb_ge. lia.
Qed.

Lemma fixed_length (n j : nat) (pe : option string) (iv : list string) :
  length_ok iv = true → j < n →
  length (fixed n j pe iv) = 2 ∨
  (fixed n j pe iv = iv ∧ length iv = 1 ∧ j = n - 1 ∧ j ≠ 0).
Proof.
  intros Hok%length_ok_spec Hj. unfold fixed.
  destruct (Nat.eqb_spec (length iv) 1) as [H1|H1].
  - destruct (Nat.eqb_spec j 0); [left; simpl; lia|].
    destruct (Nat.eqb_spec j (n - 1)); [right; repeat split; done|left; simpl; lia].
  - left. lia.
Qed.

Lemma fixed_two (n j : nat) (pe : option string) (iv : list string) :
  length iv = 2 → fixed n j pe iv = iv.
Proof. intros H. unfold fixed. by rewrite H. Qed.

Lemma fixed_ok (n j : nat) (pe : option string) (iv : list string) :
  length_ok iv = true → length_ok (fixed n j pe iv) = true.
Proof.
  intros Hok. apply length_ok_spec. apply length_ok_spec in Hok.
  unfold fixed. destruct (Nat.eqb_spec (length iv) 1); [|lia]. repeat case_match; simpl; lia.
Qed.

Lemma good_not_offending (h : heap) (c : clip) : good h c → ¬ offending h c.
Proof. intros (iv & H1 & H2) (iv' & H3 & H4). congruence. Qed.

Lemma settled_last (n j : nat) (h : heap) (c : clip) :
  settled n j h c → ∃ iv e, h !! c.2 = Some iv ∧ last iv = Some e.
Proof.
  intros (iv & Hiv & Hlen). exists iv.
  destruct iv as [|a [|b [|? ?]]]; simpl in *; try lia; eauto.
Qed.

Lemma end_of_eq (cr : list clip) (h : heap) (k : nat) (c : clip)
    (iv : list string) :
  cr !! k = Some c → h !! c.2 = Some iv → end_of cr h k = last iv.
Proof. unfold end_of. intros ->. destruct c as [nm l]. simpl. by intros ->. Qed.

(** ** One step of [fix_intervals] *)

Lemma fix_step_raise (cr : list clip) (i : nat) (nm : string) (l : loc)
    (h : heap) (iv : list string) :
  h !! l = Some iv → length_ok iv = false →
  fix_step cr i (nm, l) h = Raise (AssertionError (ConflictInInterval iv nm)).
Proof.
  intros Hl Hbad. unfold fix_step, deref. rewrite Hl. simpl. by rewrite Hbad.
Qed.

Lemma fix_step_ok (cr : list clip) (i : nat) (nm : string) (l : loc)
    (h : heap) (iv : list string) :
  h !! l = Some iv → length_ok iv = true →
  (0 < i → ∃ c, cr !! (i - 1) = Some c ∧ settled (length cr) (i - 1) h c) →
  fix_step cr i (nm, l) h =
    Ok (<[l := fixed (length cr) i (end_of cr h (i - 1)) iv]> h).
Proof.
  intros Hl Hok Hprev. unfold fix_step, deref, fixed. rewrite Hl. simpl.
  rewrite Hok. simpl.
  destruct (Nat.eqb_spec (length iv) 1) as [H1|H1];
    [|by rewrite insert_id].
  destruct (Nat.eqb_spec i 0) as [H0|H0]; [done|].
  destruct (Nat.eqb_spec i (length cr - 1)); [by rewrite insert_id|].
  destruct Hprev as ([pn pl] & Hc & Hs); [lia|].
  apply settled_last in Hs as (piv & e & Hpiv & He). simpl in Hpiv.
  rewrite (end_of_eq _ _ _ _ _ Hc Hpiv), He.
  unfold index, index_last. rewrite Hc. simpl.
  rewrite Hpiv. simpl. by rewrite He.
Qed.

(** ** Stores that only grow *)

Lemma grows_refl (h : heap) : grows h h.
Proof. intros l. by left. Qed.

Lemma grows_trans (h1 h2 h3 : heap) : grows h1 h2 → grows h2 h3 → grows h1 h3.
Proof.
  intros H12 H23 l.
  destruct (H12 l) as [E12|(a & b & Ha & Hb & Hoa & Hob)];
    destruct (H23 l) as [E23|(a' & b' & Ha' & Hb' & Hoa' & Hob')].
  - left. congruence.
  - right. exists a', b'. rewrite <- E12. done.
  - right. exists a, b. rewrite E23. done.
  - right. exists a, b'. done.
Qed.

Lemma grows_insert (h : heap) (l : loc) (iv iv' : list string) :
  h !! l = Some iv → length_ok iv = true → length_ok iv' = true →
  grows h (<[l := iv']> h).
Proof.
  intros Hl Hok Hok' l'. destruct (decide (l = l')) as [<-|Hne].
  - right. exists iv, iv'. by rewrite lookup_insert_eq.
  - left. by rewrite lookup_insert_ne.
Qed.

Lemma grows_good (h h' : heap) (c : clip) : grows h h' → good h c ↔ good h' c.
Proof.
  intros Hg. unfold good.
  destruct (Hg c.2) as [E|(a & b & Ha & Hb & Hoa & Hob)].
  - by rewrite E.
  - split; intros _; eauto.
Qed.

Lemma grows_offending (h h' : heap) (l : loc) (iv : list string) :
  grows h h' → length_ok iv = false → h !! l = Some iv ↔ h' !! l = Some iv.
Proof.
  intros Hg Hbad.
  destruct (Hg l) as [E|(a & b & Ha & Hb & Hoa & Hob)].
  - by rewrite E.
  - rewrite Ha, Hb. split; intros [= ->]; congruence.
Qed.

Lemma grows_is_Some (h h' : heap) (l : loc) :
  grows h h' → is_Some (h !! l) → is_Some (h' !! l).
Proof.
  intros Hg Hs. destruct (Hg l) as [E|(a & b & Ha & Hb & _)].
  - by rewrite E.
  - by rewrite Hb.
Qed.

(** ** The loop of [fix_intervals] *)

Lemma fix_loop_cons (cr : list clip) (i : nat) (c : clip) (rest : list clip)
    (h : heap) :
  fix_loop cr i (c :: rest) h =
    match fix_step cr i c h with
    | Ok h' => fix_loop cr (S i) rest h'
    | Raise e => Raise e
    end.
Proof. reflexivity. Qed.

Section FixLoop.

Variable cr : list clip.

Lemma drop_cons_inv (i : nat) (c : clip) (rest : list clip) :
  drop i cr = c :: rest → cr !! i = Some c ∧ drop (S i) cr = rest.
Proof.
  intros Hd.
  assert (cr !! i = Some c) as Hc.
  { rewrite <- (Nat.add_0_r i), <- lookup_drop, Hd. done. }
  split; [done|]. apply drop_S in Hc. congruence.
Qed.

Lemma drop_nil_inv (i : nat) : drop i cr = [] → length cr ≤ i.
Proof.
  intros Hd. pose proof (length_drop cr i) as Hl. rewrite Hd in Hl.
  simpl in Hl. lia.
Qed.

Lemma settled_step (i : nat) (nm : string) (l : loc) (h : heap)
    (iv : list string) (pe : option string) :
  cr !! i = Some (nm, l) → h !! l = Some iv → length_ok iv = true →
  settled_upto cr i h →
  settled_upto cr (S i) (<[l := fixed (length cr) i pe iv]> h).
Proof.
  intros Hc Hl Hok Hup j [nm' l'] Hj Hcj. unfold settled. simpl.
  assert (i < length cr) as Hi by (by eapply lookup_lt_Some).
  destruct (decide (l' = l)) as [->|Hne].
  - rewrite lookup_insert_eq. eexists; split; [done|].
    destruct (decide (j = i)) as [->|Hji].
    + destruct (fixed_length (length cr) i pe iv Hok Hi)
        as [H2|(E & H1 & Hlast & H0)]; [by left|].
      right. by rewrite E.
    + destruct (Hup j (nm', l)) as (iv' & Hiv' & Hlen); [lia|done|].
      simpl in Hiv'. assert (iv' = iv) as -> by congruence.
      destruct Hlen as [H2|(_ & Hlast & _)]; [|lia].
      left. by rewrite fixed_two.
  - rewrite lookup_insert_ne by done.
    destruct (decide (j = i)) as [->|Hji]; [congruence|].
    apply (Hup j (nm', l')); [lia|done].
Qed.

Lemma settled_prev (i : nat) (h : heap) :
  i ≤ length cr → settled_upto cr i h → 0 < i →
  ∃ c, cr !! (i - 1) = Some c ∧ settled (length cr) (i - 1) h c.
Proof.
  intros Hi Hup H0.
  destruct (lookup_lt_is_Some_2 cr (i - 1)) as [c Hc]; [lia|].
  exists c. split; [done|]. apply Hup; [lia|done].
Qed.

(** A run of the loop from position [i]: it ends with every clip settled,
    or raises the assertion of line 15 at the first clip whose interval is
    out of range. *)
Lemma fix_loop_run (rest : list clip) :
  ∀ (i : nat) (h : heap),
    drop i cr = rest →
    (∀ c, c ∈ cr → is_Some (h !! c.2)) →
    settled_upto cr i h →
    match fix_loop cr i rest h with
    | Ok h' =>
        grows h h' ∧ settled_upto cr (length cr) h' ∧
        (∀ j c, i ≤ j → cr !! j = Some c → good h c)
    | Raise e =>
        ∃ j nm l iv,
          i ≤ j ∧ cr !! j = Some (nm, l) ∧ h !! l = Some iv ∧
          length_ok iv = false ∧
          e = AssertionError (ConflictInInterval iv nm) ∧
          (∀ j' c, i ≤ j' < j → cr !! j' = Some c → good h c)
    end.
Proof.
  induction rest as [|[nm l] rest' IH]; intros i h Hd Hval Hup.
  - apply drop_nil_inv in Hd. simpl. split; [apply grows_refl|]. split.
    + intros j c Hj Hc. apply Hup; [|done].
      apply lookup_lt_Some in Hc. lia.
    + intros j c Hj Hc. apply lookup_lt_Some in Hc. lia.
  - apply drop_cons_inv in Hd as [Hc Hd].
    assert (i < length cr) as Hi by (by eapply lookup_lt_Some).
    destruct (Hval (nm, l)) as [iv Hiv];
      [by eapply list_elem_of_lookup_2|]. simpl in Hiv.
    rewrite fix_loop_cons. destruct (length_ok iv) eqn:Hok.
    + rewrite (fix_step_ok cr i nm l h iv Hiv Hok)
        by (apply settled_prev; [lia|done]).
      set (h1 := <[l := _]> h).
      assert (grows h h1) as Hg.
      { apply (grows_insert h l iv); [done|done|by apply fixed_ok]. }
      specialize (IH (S i) h1 Hd).
      destruct (fix_loop cr (S i) rest' h1) as [h'|e].
      * destruct IH as (Hg' & Hup' & Hgood).
        { intros c Hin. eapply grows_is_Some; [done|by apply Hval]. }
        { by apply (settled_step i nm). }
        split; [by eapply grows_trans|]. split; [done|].
        intros j c Hj Hcj. destruct (decide (j = i)) as [->|Hne].
        -- assert (c = (nm, l)) as -> by congruence. by exists iv.
        -- eapply grows_good; [done|]. apply (Hgood j); [lia|done].
      * destruct IH as (j & nm' & l' & iv' & Hj & Hcj & Hl' & Hbad & -> & Hfirst).
        { intros c Hin. eapply grows_is_Some; [done|by apply Hval]. }
        { by apply (settled_step i nm). }
        exists j, nm', l', iv'. split; [lia|]. split; [done|].
        split; [by eapply grows_offending|]. split; [done|]. split; [done|].
        intros j' c Hj' Hcj'. destruct (decide (j' = i)) as [->|Hne].
        -- assert (c = (nm, l)) as -> by congruence. by exists iv.
        -- eapply grows_good; [done|]. apply (Hfirst j'); [lia|done].
    + rewrite (fix_step_raise cr i nm l h iv Hiv Hok).
      exists i, nm, l, iv. repeat split; try done. intros j' c Hj'. lia.
Qed.

End FixLoop.

(** ** The store after [fix_intervals], when no two clips share an interval *)

Lemma fixed_ext (n j : nat) (pe pe' : option string) (iv : list string) :
  (0 < j → pe = pe') → fixed n j pe iv = fixed n j pe' iv.
Proof.
  intros H. unfold fixed. destruct (Nat.eqb_spec j 0); [done|].
  rewrite H by lia. done.
Qed.

Lemma end_of_ext (cr : list clip) (h h' : heap) (k : nat) :
  (∀ c, cr !! k = Some c → h' !! c.2 = h !! c.2) →
  end_of cr h' k = end_of cr h k.
Proof.
  intros H. unfold end_of. destruct (cr !! k) as [[nm l]|]; [|done].
  specialize (H (nm, l) eq_refl). simpl in H. by rewrite H.
Qed.

Section FixValues.

Variable cr : list clip.
Hypothesis cr_NoDup : NoDup cr.*2.

Lemma refs_inj (j1 j2 : nat) (c1 c2 : clip) :
  cr !! j1 = Some c1 → cr !! j2 = Some c2 → c1.2 = c2.2 → j1 = j2.
Proof.
  intros H1 H2 E. apply (NoDup_lookup (cr.*2) j1 j2 c1.2); [done| |].
  - by rewrite list_lookup_fmap, H1.
  - by rewrite list_lookup_fmap, H2, E.
Qed.

Lemma fix_loop_values (rest : list clip) :
  ∀ (i : nat) (h h' : heap),
    drop i cr = rest →
    settled_upto cr i h →
    fix_loop cr i rest h = Ok h' →
    (∀ l, (∀ j c, i ≤ j → cr !! j = Some c → c.2 ≠ l) → h' !! l = h !! l) ∧
    (∀ j nm l iv, i ≤ j → cr !! j = Some (nm, l) → h !! l = Some iv →
       h' !! l = Some (fixed (length cr) j (end_of cr h' (j - 1)) iv)).
Proof.
  induction rest as [|[nm l] rest' IH]; intros i h h' Hd Hup Hrun.
  - apply drop_nil_inv in Hd. simpl in Hrun. injection Hrun as <-.
    split; [done|]. intros j nm l iv Hj Hc. apply lookup_lt_Some in Hc. lia.
  - apply drop_cons_inv in Hd as [Hc Hd].
    assert (i < length cr) as Hi by (by eapply lookup_lt_Some).
    rewrite fix_loop_cons in Hrun.
    destruct (h !! l) as [iv|] eqn:Hiv;
      [|by unfold fix_step, deref in Hrun; rewrite Hiv in Hrun].
    destruct (length_ok iv) eqn:Hok;
      [|by rewrite (fix_step_raise cr i nm l h iv Hiv Hok) in Hrun].
    rewrite (fix_step_ok cr i nm l h iv Hiv Hok) in Hrun
      by (apply settled_prev; [lia|done]).
    set (h1 := <[l := fixed (length cr) i (end_of cr h (i - 1)) iv]> h) in *.
    destruct (IH (S i) h1 h' Hd) as [Hframe Hvals];
      [by apply (settled_step cr i nm)|done|].
    assert (∀ j n0 l0, j ≠ i → cr !! j = Some (n0, l0) → l0 ≠ l) as Hother.
    { intros j n0 l0 Hji Hcj E. apply Hji.
      by apply (refs_inj j i (n0, l0) (nm, l)). }
    assert (∀ j n0 l0, j < S i → cr !! j = Some (n0, l0) →
              h' !! l0 = h1 !! l0) as Hkeep.
    { intros j n0 l0 Hj Hcj. apply Hframe. intros j' c' Hj' Hcj' E.
      assert (j' = j) by (by apply (refs_inj j' j c' (n0, l0))). lia. }
    split.
    + intros l0 Hl0. rewrite Hframe.
      * unfold h1. rewrite lookup_insert_ne; [done|].
        intros E. by apply (Hl0 i (nm, l)).
      * intros j c Hj. apply Hl0. lia.
    + intros j nm' l' iv' Hj Hcj Hl'.
      destruct (decide (j = i)) as [->|Hne].
      * assert (nm' = nm ∧ l' = l) as [-> ->] by (split; congruence).
        assert (iv' = iv) as -> by congruence.
        rewrite (Hkeep i nm l) by (lia || done).
        unfold h1 at 1. rewrite lookup_insert_eq. f_equal.
        apply fixed_ext. intros H0. symmetry. apply end_of_ext.
        intros [pn pl] Hcp. simpl. rewrite (Hkeep (i - 1) pn pl) by (lia || done).
        unfold h1. rewrite lookup_insert_ne; [done|].
        apply not_eq_sym, (Hother (i - 1) pn); [lia|done].
      * apply (Hvals j nm'); [lia|done|]. unfold h1.
        rewrite lookup_insert_ne; [done|].
        apply not_eq_sym, (Hother j nm'); done.
Qed.

End FixValues.

Lemma well_formedb_spec (cr : list clip) (h : heap) :
  well_formedb cr h = true → well_formed cr h.
Proof.
  unfold well_formedb. intros [Hnd Hall]%andb_true_iff.
  split; [by apply bool_decide_eq_true in Hnd|].
  intros c Hc. rewrite forallb_forall in Hall.
  apply list_elem_of_In in Hc. specialize (Hall c Hc).
  unfold good. destruct (h !! c.2) as [iv|]; [|done]. by exists iv.
Qed.

Lemma good_is_Some (h : heap) (c : clip) : good h c → is_Some (h !! c.2).
Proof. intros (iv & H & _). by exists iv. Qed.

Lemma settled_upto_0 (cr : list clip) (h : heap) : settled_upto cr 0 h.
Proof. intros j c Hj. lia. Qed.

Lemma fix_intervals_ok (cr : list clip) (h : heap) :
  in_range cr h →
  ∃ h', fix_intervals cr h = Ok (h', cr) ∧
        settled_upto cr (length cr) h' ∧ grows h h'.
Proof.
  intros Hgood.
  pose proof (fix_loop_run cr cr 0 h eq_refl) as Hrun.
  unfold fix_intervals.
  destruct (fix_loop cr 0 cr h) as [h'|e].
  - destruct Hrun as (Hg & Hup & _);
      [by intros c Hc; apply good_is_Some, Hgood|apply settled_upto_0|].
    by exists h'.
  - destruct Hrun as (j & nm & l & iv & _ & Hc & Hl & Hbad & _);
      [by intros c Hc; apply good_is_Some, Hgood|apply settled_upto_0|].
    destruct (Hgood (nm, l)) as (iv' & Hl' & Hok');
      [by eapply list_elem_of_lookup_2|].
    simpl in Hl'. congruence.
Qed.

Lemma fix_intervals_spec (cr : list clip) (h : heap) :
  well_formed cr h →
  ∃ h', fix_intervals cr h = Ok (h', cr) ∧
        settled_upto cr (length cr) h' ∧ grows h h' ∧ resolved_from cr h h'.
Proof.
  intros [Hnd Hgood].
  destruct (fix_intervals_ok cr h Hgood) as (h' & Hfix & Hup & Hg).
  exists h'. split; [done|]. split; [done|]. split; [done|].
  assert (fix_loop cr 0 cr h = Ok h') as Hloop.
  { unfold fix_intervals in Hfix.
    destruct (fix_loop cr 0 cr h); simpl in Hfix; congruence. }
  destruct (fix_loop_values cr Hnd cr 0 h h' eq_refl
              (settled_upto_0 cr h) Hloop) as [Hframe Hvals].
  split.
  - intros l Hl. apply Hframe. intros j c _ Hc <-. apply Hl.
    apply list_elem_of_fmap. exists c. split; [done|].
    by eapply list_elem_of_lookup_2.
  - intros j nm l iv. apply Hvals. lia.
Qed.

(** ** The planning loop *)

Lemma bounds_two (n j : nat) (s e : string) : bounds n j [s; e] = Ok (s, e).
Proof. unfold bounds. simpl. by rewrite andb_false_r. Qed.

Lemma bounds_last (n j : nat) (s : string) :
  j = n - 1 → bounds n j [s] = Ok (s, "").
Proof. intros ->. unfold bounds. simpl. by rewrite Nat.eqb_refl. Qed.

Lemma bounds_settled (n j : nat) (iv : list string) :
  length iv = 2 ∨ (length iv = 1 ∧ j = n - 1 ∧ j ≠ 0) →
  ∃ s e, bounds n j iv = Ok (s, e).
Proof.
  intros [H|(H & Hj & _)]; destruct iv as [|a [|b [|? ?]]]; simpl in H; try lia.
  - exists a, b. apply bounds_two.
  - exists a, "". by apply bounds_last.
Qed.

Section PlanLoop.

Variable os_path_join : string → string → string.
Variables output_dir source_path source_ext : string.

Local Abbreviation job := (job_of os_path_join output_dir source_path source_ext).

Lemma plan_loop_cons (cr : list clip) (i : nat) (c : clip) (rest : list clip)
    (h : heap) (tasks : list invocation) :
  plan_loop os_path_join output_dir source_path source_ext cr i (c :: rest)
    h tasks =
    match plan_step os_path_join output_dir source_path source_ext cr i c
            h tasks with
    | Ok tasks' =>
        plan_loop os_path_join output_dir source_path source_ext cr (S i)
          rest h tasks'
    | Raise e => Raise e
    end.
Proof. reflexivity. Qed.

Lemma plan_step_ok (cr : list clip) (i : nat) (nm : string) (l : loc)
    (h : heap) (tasks : list invocation) (iv : list string) (s e : string) :
  h !! l = Some iv → length_ok iv = true →
  bounds (length cr) i iv = Ok (s, e) →
  plan_step os_path_join output_dir source_path source_ext cr i (nm, l)
    h tasks = Ok (tasks ++ [job nm s e]).
Proof.
  intros Hl Hok Hb. unfold plan_step, deref. rewrite Hl. simpl.
  rewrite Hok. simpl. rewrite Hb. done.
Qed.

Lemma settled_length_ok (n j : nat) (iv : list string) :
  length iv = 2 ∨ (length iv = 1 ∧ j = n - 1 ∧ j ≠ 0) → length_ok iv = true.
Proof. intros H. apply length_ok_spec. lia. Qed.

Lemma plan_loop_ok (cr : list clip) (h : heap) (rest : list clip) :
  settled_upto cr (length cr) h →
  ∀ (i : nat) (tasks : list invocation),
    drop i cr = rest →
    ∃ jobs,
      plan_loop os_path_join output_dir source_path source_ext cr i rest
        h tasks = Ok (tasks ++ jobs) ∧
      length jobs = length rest ∧
      ∀ k nm l iv, rest !! k = Some (nm, l) → h !! l = Some iv →
        ∃ s e, bounds (length cr) (i + k) iv = Ok (s, e) ∧
               jobs !! k = Some (job nm s e).
Proof.
  intros Hup. induction rest as [|[nm l] rest' IH]; intros i tasks Hd.
  - exists []. simpl. by rewrite app_nil_r.
  - apply drop_cons_inv in Hd as [Hc Hd].
    assert (i < length cr) as Hi by (by eapply lookup_lt_Some).
    destruct (Hup i (nm, l) Hi Hc) as (iv & Hiv & Hlen). simpl in Hiv.
    destruct (bounds_settled (length cr) i iv Hlen) as (s & e & Hb).
    rewrite plan_loop_cons.
    rewrite (plan_step_ok cr i nm l h tasks iv s e Hiv
               (settled_length_ok _ _ _ Hlen) Hb).
    destruct (IH (S i) (tasks ++ [job nm s e]) Hd)
      as (jobs & Hrun & Hlenj & Hjobs).
    exists (job nm s e :: jobs). split; [|split].
    + rewrite Hrun. by rewrite <- app_assoc.
    + simpl. by rewrite Hlenj.
    + intros [|k] nm' l' iv' Hk Hl'; simpl in Hk.
      * injection Hk as <- <-. assert (iv' = iv) as -> by congruence.
        exists s, e. by rewrite Nat.add_0_r.
      * destruct (Hjobs k nm' l' iv' Hk Hl') as (s' & e' & Hb' & Hj').
        exists s', e'. split; [|done].
        by replace (i + S k) with (S i + k) by lia.
Qed.

End PlanLoop.

(** ** One source file: resolution followed by planning *)

Lemma make_config_ss (s e : string) : make_config s e !! "ss" = Some s.
Proof.
  unfold make_config. destruct (truthy e).
  - rewrite lookup_insert_ne by done. apply lookup_insert_eq.
  - apply lookup_insert_eq.
Qed.

Lemma make_config_to (s e : string) :
  make_config s e !! "to" = if truthy e then Some e else None.
Proof.
  unfold make_config. destruct (truthy e).
  - apply lookup_insert_eq.
  - by rewrite !lookup_insert_ne, lookup_empty by done.
Qed.

Lemma make_config_codecs (s e : string) :
  make_config s e !! "codec:v" = Some "copy" ∧
  make_config s e !! "codec:a" = Some "copy".
Proof.
  unfold make_config. destruct (truthy e); split;
    rewrite ?(lookup_insert_ne _ "to"), ?(lookup_insert_ne _ "ss") by done.
  all: try apply lookup_insert_eq.
  all: rewrite lookup_insert_ne by done; apply lookup_insert_eq.
Qed.

Lemma plan_source_jobs (os_path_join : string → string → string)
    (output_dir : string) (src : source) (h : heap)
    (tasks : list invocation) :
  in_range (clip_ranges src) h →
  ∃ h' jobs,
    plan_source os_path_join output_dir src h tasks = Ok (h', tasks ++ jobs) ∧
    fix_intervals (clip_ranges src) h = Ok (h', clip_ranges src) ∧
    grows h h' ∧
    settled_upto (clip_ranges src) (length (clip_ranges src)) h' ∧
    length jobs = length (clip_ranges src) ∧
    ∀ j nm l iv, clip_ranges src !! j = Some (nm, l) → h' !! l = Some iv →
      ∃ s e, bounds (length (clip_ranges src)) j iv = Ok (s, e) ∧
             jobs !! j = Some (job_of os_path_join output_dir (path src)
                                 (source_ext_of (path src)) nm s e).
Proof.
  intros Hin.
  destruct (fix_intervals_ok _ _ Hin) as (h' & Hfix & Hup & Hg).
  destruct (plan_loop_ok os_path_join output_dir (path src)
              (source_ext_of (path src)) (clip_ranges src) h'
              (clip_ranges src) Hup 0 tasks eq_refl)
    as (jobs & Hrun & Hlen & Hjobs).
  exists h', jobs. unfold plan_source. rewrite Hfix. simpl. rewrite Hrun.
  by split_and!.
Qed.

Lemma plan_source_spec (os_path_join : string → string → string)
    (output_dir : string) (src : source) (h : heap)
    (tasks : list invocation) :
  well_formed (clip_ranges src) h →
  ∃ h' jobs,
    plan_source os_path_join output_dir src h tasks = Ok (h', tasks ++ jobs) ∧
    resolved_from (clip_ranges src) h h' ∧
    ∀ j nm l iv, clip_ranges src !! j = Some (nm, l) → h' !! l = Some iv →
      ∃ s e, bounds (length (clip_ranges src)) j iv = Ok (s, e) ∧
             jobs !! j = Some (job_of os_path_join output_dir (path src)
                                 (source_ext_of (path src)) nm s e).
Proof.
  intros Hwf.
  destruct (plan_source_jobs os_path_join output_dir src h tasks (proj2 Hwf))
    as (h' & jobs & Hrun & Hfix & _ & _ & _ & Hjobs).
  destruct (fix_intervals_spec _ _ Hwf) as (h'' & Hfix' & _ & _ & Hres).
  assert (h'' = h') as -> by congruence.
  by exists h', jobs.
Qed.

(** ** The claims *)

(** C1.  A source file whose clips are [A:[t1], B:[t2,t3], C:[t4]], each
    interval an object of its own ([lA ≠ lC]; the interval of [B] differs
    from the two others by its length): [fix_intervals] puts [00:00:00] in front
    of [t1] and leaves the two other intervals alone, and planning gives
    three jobs whose locals [(start, end)] are [(00:00:00, t1)], [(t2, t3)]
    and [(t4, '')]: the end of [C] is the empty string that stands for an
    absent end, and the job of [C] has no ['to'] option, while the jobs of
    [A] and [B] carry their non-empty ends as ['to']. *)
Theorem C1_three_clips (os_path_join : string → string → string)
    (output_dir source_path A B C t1 t2 t3 t4 : string)
    (lA lB lC : loc) (h : heap) (tasks : list invocation) :
  lA ≠ lC →
  h !! lA = Some [t1] → h !! lB = Some [t2; t3] → h !! lC = Some [t4] →
  let cr := [(A, lA); (B, lB); (C, lC)] in
  let h' := <[lA := ["00:00:00"; t1]]> h in
  let job := job_of os_path_join output_dir source_path
               (source_ext_of source_path) in
  fix_intervals cr h = Ok (h', cr) ∧
  h' !! lA = Some ["00:00:00"; t1] ∧
  h' !! lB = Some [t2; t3] ∧
  h' !! lC = Some [t4] ∧
  bounds 3 0 ["00:00:00"; t1] = Ok ("00:00:00", t1) ∧
  bounds 3 1 [t2; t3] = Ok (t2, t3) ∧
  bounds 3 2 [t4] = Ok (t4, "") ∧
  plan_source os_path_join output_dir (Source source_path cr) h tasks =
    Ok (h', tasks ++ [job A "00:00:00" t1; job B t2 t3; job C t4 ""]) ∧
  output_options (job A "00:00:00" t1) !! "ss" = Some "00:00:00" ∧
  (t1 ≠ "" → output_options (job A "00:00:00" t1) !! "to" = Some t1) ∧
  output_options (job B t2 t3) !! "ss" = Some t2 ∧
  (t3 ≠ "" → output_options (job B t2 t3) !! "to" = Some t3) ∧
  output_options (job C t4 "") !! "ss" = Some t4 ∧
  output_options (job C t4 "") !! "to" = None.
Proof.
  intros HAC HA HB HC cr h' job.
  assert (lA ≠ lB) as HAB by (intros ->; congruence).
  assert (h' !! lA = Some ["00:00:00"; t1]) as HA'
    by apply lookup_insert_eq.
  assert (h' !! lB = Some [t2; t3]) as HB'
    by (unfold h'; by rewrite lookup_insert_ne).
  assert (h' !! lC = Some [t4]) as HC'
    by (unfold h'; by rewrite lookup_insert_ne).
  assert (fix_intervals cr h = Ok (h', cr)) as Hfix.
  { unfold fix_intervals, cr. simpl. unfold deref.
    rewrite HA. simpl. fold h'. rewrite HB'. simpl. by rewrite HC'. }
  assert (∀ nm s e, e ≠ "" → output_options (job nm s e) !! "to" = Some e)
    as Hto.
  { intros nm s e He. unfold job. cbn [job_of build_clip output_options].
    rewrite make_config_to. by destruct e. }
  split_and!; try done; try apply make_config_ss; try apply Hto.
  unfold plan_source. simpl path. simpl clip_ranges. rewrite Hfix.
  simpl. unfold deref. rewrite HA'. simpl. rewrite HB'. simpl.
  rewrite HC'. simpl. by rewrite <- !app_assoc.
Qed.

Lemma C1_three_clips_witness :
  let h : heap := <[0 := ["00:10:00"]]>
                    (<[1 := ["00:12:00"; "00:20:00"]]>
                       (<[2 := ["00:25:00"]]> ∅)) in
  let cr := [("intro", 0); ("talk", 1); ("outro", 2)] in
  fix_intervals cr h = Ok (<[0 := ["00:00:00"; "00:10:00"]]> h, cr).
Proof.
  intros h cr.
  apply (C1_three_clips posix_join "out" "in.mp4" "intro" "talk" "outro"
           "00:10:00" "00:12:00" "00:20:00" "00:25:00" 0 1 2 h []);
    (lia || reflexivity).
Defined.

(** C3.  A source file with one clip that carries the one timestamp [t]:
    the clip is at position 0, so the first-position branch of
    [fix_intervals] runs and the interval becomes [[00:00:00, t]]; planning
    then unpacks it as [(start, end) = (00:00:00, t)] instead of taking the
    branch of a last clip with one timestamp, and a non-empty [t] is the
    job's ['to'] option. *)
Theorem C3_single_clip (os_path_join : string → string → string)
    (output_dir source_path name t : string) (l : loc) (h : heap)
    (tasks : list invocation) :
  h !! l = Some [t] →
  let cr := [(name, l)] in
  let h' := <[l := ["00:00:00"; t]]> h in
  let job := job_of os_path_join output_dir source_path
               (source_ext_of source_path) name "00:00:00" t in
  fix_intervals cr h = Ok (h', cr) ∧
  h' !! l = Some ["00:00:00"; t] ∧
  bounds 1 0 ["00:00:00"; t] = Ok ("00:00:00", t) ∧
  plan_source os_path_join output_dir (Source source_path cr) h tasks =
    Ok (h', tasks ++ [job]) ∧
  output_options job !! "ss" = Some "00:00:00" ∧
  (t ≠ "" → output_options job !! "to" = Some t).
Proof.
  intros Hl cr h' job.
  assert (h' !! l = Some ["00:00:00"; t]) as Hl' by apply lookup_insert_eq.
  assert (fix_intervals cr h = Ok (h', cr)) as Hfix.
  { unfold fix_intervals, cr. simpl. unfold deref. by rewrite Hl. }
  split_and!; try done.
  - unfold plan_source. simpl path. simpl clip_ranges. rewrite Hfix.
    simpl. unfold deref. by rewrite Hl'.
  - apply make_config_ss.
  - intros Ht. unfold job. cbn [job_of build_clip output_options].
    rewrite make_config_to. by destruct t.
Qed.

Lemma C3_single_clip_witness :
  let h : heap := <[7 := ["00:42:00"]]> ∅ in
  fix_intervals [("whole", 7)] h =
    Ok (<[7 := ["00:00:00"; "00:42:00"]]> h, [("whole", 7)]).
Proof.
  intros h.
  apply (C3_single_clip posix_join "out" "in.mkv" "whole" "00:42:00" 7 h []).
  reflexivity.
Defined.

(** C2.  In a well-formed clip sequence, an interior clip at position [i]
    that carries the one timestamp [t]: after [fix_intervals] the clip
    before it holds two timestamps [[s, e]] (it has an end), the clip
    itself holds [[e, t]], and planning reads these as [(s, e)] and
    [(e, t)]: the start of clip [i] is the end of clip [i-1]. *)
Theorem C2_interior_chain (cr : list clip) (h : heap) (i : nat)
    (name t : string) (l : loc) :
  well_formed cr h →
  0 < i → i < length cr - 1 →
  cr !! i = Some (name, l) → h !! l = Some [t] →
  ∃ h' pname pl s e,
    fix_intervals cr h = Ok (h', cr) ∧
    cr !! (i - 1) = Some (pname, pl) ∧
    h' !! pl = Some [s; e] ∧
    h' !! l = Some [e; t] ∧
    bounds (length cr) (i - 1) [s; e] = Ok (s, e) ∧
    bounds (length cr) i [e; t] = Ok (e, t).
Proof.
  intros Hwf H0 Hi Hc Hl.
  destruct (fix_intervals_spec cr h Hwf) as (h' & Hfix & Hup & _ & _ & Hvals).
  destruct (lookup_lt_is_Some_2 cr (i - 1)) as [[pn pl] Hp]; [lia|].
  destruct (Hup (i - 1) (pn, pl)) as (piv & Hpiv & Hlen); [lia|done|].
  simpl in Hpiv. destruct Hlen as [Hlen|(_ & Hlast & _)]; [|lia].
  destruct piv as [|s [|e [|? ?]]]; simpl in Hlen; try lia.
  exists h', pn, pl, s, e. split_and!; try done.
  - rewrite (Hvals i name l [t] Hc Hl).
    rewrite (end_of_eq cr h' (i - 1) (pn, pl) [s; e] Hp Hpiv).
    unfold fixed. simpl.
    destruct (Nat.eqb_spec i 0); [lia|].
    destruct (Nat.eqb_spec i (length cr - 1)); [lia|done].
  - apply bounds_two.
  - apply bounds_two.
Qed.

Lemma C2_interior_chain_witness :
  let h : heap := <[0 := ["00:10:00"]]>
                    (<[1 := ["00:20:00"]]> (<[2 := ["00:30:00"]]> ∅)) in
  let cr := [("a", 0); ("b", 1); ("c", 2)] in
  ∃ h' pname pl s e,
    fix_intervals cr h = Ok (h', cr) ∧
    cr !! (1 - 1) = Some (pname, pl) ∧
    h' !! pl = Some [s; e] ∧
    h' !! 1 = Some [e; "00:20:00"] ∧
    bounds (length cr) (1 - 1) [s; e] = Ok (s, e) ∧
    bounds (length cr) 1 [e; "00:20:00"] = Ok (e, "00:20:00").
Proof.
  intros h cr.
  apply (C2_interior_chain cr h 1 "b" "00:20:00" 1).
  - apply well_formedb_spec. reflexivity.
  - lia.
  - simpl. lia.
  - reflexivity.
  - reflexivity.
Defined.

(** C4.  For a source file with well-formed clip ranges, resolution and
    planning succeed, there is one job per clip, and the job at position
    [j] has its ['ss'] option set to the first timestamp of the resolved
    interval of clip [j]: every resolved interval has a start. *)
Theorem C4_seek_start (os_path_join : string → string → string)
    (output_dir : string) (src : source) (h : heap)
    (tasks : list invocation) :
  in_range (clip_ranges src) h →
  ∃ h' jobs,
    plan_source os_path_join output_dir src h tasks = Ok (h', tasks ++ jobs) ∧
    length jobs = length (clip_ranges src) ∧
    ∀ j job, jobs !! j = Some job →
      ∃ name l start rest,
        clip_ranges src !! j = Some (name, l) ∧
        h' !! l = Some (start :: rest) ∧
        output_options job !! "ss" = Some start.
Proof.
  intros Hin.
  destruct (plan_source_jobs os_path_join output_dir src h tasks Hin)
    as (h' & jobs & Hrun & _ & _ & Hup & Hlen & Hjobs).
  exists h', jobs. split_and!; try done.
  intros j job Hj.
  assert (j < length (clip_ranges src)) as Hlt
    by (rewrite <- Hlen; by eapply lookup_lt_Some).
  destruct (lookup_lt_is_Some_2 _ _ Hlt) as [[nm l] Hc].
  destruct (Hup j (nm, l) Hlt Hc) as (iv & Hiv & Hshape). simpl in Hiv.
  destruct (Hjobs j nm l iv Hc Hiv) as (s & e & Hb & Hj').
  assert (job = job_of os_path_join output_dir (path src)
                  (source_ext_of (path src)) nm s e) as -> by congruence.
  destruct iv as [|a [|b [|? ?]]]; simpl in Hshape; try lia.
  - destruct Hshape as [?|(_ & Hlast & _)]; [lia|].
    rewrite bounds_last in Hb by done. injection Hb as <- <-.
    exists nm, l, a, []. split_and!; first [done|apply make_config_ss].
  - rewrite bounds_two in Hb. injection Hb as <- <-.
    exists nm, l, a, [b]. split_and!; first [done|apply make_config_ss].
Qed.

Lemma C4_seek_start_witness :
  let h : heap := <[0 := ["00:10:00"]]>
                    (<[1 := ["00:12:00"; "00:20:00"]]>
                       (<[2 := ["00:25:00"]]> ∅)) in
  let src := Source "in.mp4" [("intro", 0); ("talk", 1); ("outro", 2)] in
  ∃ h' jobs,
    plan_source posix_join "out" src h [] = Ok (h', [] ++ jobs) ∧
    length jobs = 3 ∧
    ∀ j job, jobs !! j = Some job →
      ∃ name l start rest,
        clip_ranges src !! j = Some (name, l) ∧
        h' !! l = Some (start :: rest) ∧
        output_options job !! "ss" = Some start.
Proof.
  intros h src.
  apply (C4_seek_start posix_join "out" src h []).
  apply well_formedb_spec. reflexivity.
Defined.

(** C5.  In a well-formed clip sequence of two clips or more whose last
    clip carries one timestamp [t]: [fix_intervals] leaves that interval as
    it is, planning takes [(start, end) = (t, '')], and the option mapping
    of the job has ['ss'] and no ['to'] key at all. *)
Theorem C5_open_end_omits_to (os_path_join : string → string → string)
    (output_dir : string) (src : source) (h : heap)
    (tasks : list invocation) (name t : string) (l : loc) :
  well_formed (clip_ranges src) h →
  1 < length (clip_ranges src) →
  clip_ranges src !! (length (clip_ranges src) - 1) = Some (name, l) →
  h !! l = Some [t] →
  ∃ h' jobs job,
    plan_source os_path_join output_dir src h tasks = Ok (h', tasks ++ jobs) ∧
    h' !! l = Some [t] ∧
    bounds (length (clip_ranges src)) (length (clip_ranges src) - 1) [t]
      = Ok (t, "") ∧
    jobs !! (length (clip_ranges src) - 1) = Some job ∧
    output_options job !! "ss" = Some t ∧
    output_options job !! "to" = None ∧
    "to" ∉ dom (output_options job).
Proof.
  intros Hwf Hn Hc Hl. set (n := length (clip_ranges src)) in *.
  destruct (plan_source_spec os_path_join output_dir src h tasks Hwf)
    as (h' & jobs & Hrun & [_ Hvals] & Hjobs).
  assert (h' !! l = Some [t]) as Hl'.
  { rewrite (Hvals (n - 1) name l [t] Hc Hl). unfold fixed. simpl.
    destruct (Nat.eqb_spec (n - 1) 0); [lia|]. fold n.
    by rewrite Nat.eqb_refl. }
  destruct (Hjobs (n - 1) name l [t] Hc Hl') as (s & e & Hb & Hj).
  fold n in Hb. rewrite bounds_last in Hb by done. injection Hb as <- <-.
  exists h', jobs, (job_of os_path_join output_dir (path src)
                      (source_ext_of (path src)) name t "").
  split; [done|]. split; [done|]. split; [by apply bounds_last|].
  split; [done|]. split; [apply make_config_ss|].
  cbn [job_of build_clip output_options].
  split; [by rewrite make_config_to|].
  apply not_elem_of_dom. by rewrite make_config_to.
Qed.

Lemma C5_open_end_omits_to_witness :
  let h : heap := <[0 := ["00:10:00"; "00:20:00"]]>
                    (<[1 := ["00:25:00"]]> ∅) in
  let src := Source "in.mp4" [("talk", 0); ("outro", 1)] in
  ∃ h' jobs job,
    plan_source posix_join "out" src h [] = Ok (h', [] ++ jobs) ∧
    h' !! 1 = Some ["00:25:00"] ∧
    bounds 2 1 ["00:25:00"] = Ok ("00:25:00", "") ∧
    jobs !! 1 = Some job ∧
    output_options job !! "ss" = Some "00:25:00" ∧
    output_options job !! "to" = None ∧
    "to" ∉ dom (output_options job).
Proof.
  intros h src.
  apply (C5_open_end_omits_to posix_join "out" src h [] "outro" "00:25:00" 1).
  - apply well_formedb_spec. reflexivity.
  - simpl. lia.
  - reflexivity.
  - reflexivity.
Defined.

(** C10.  For a source file with well-formed clip ranges, the job of a
    clip has the ['to'] option exactly when the local [end] is a non-empty
    string.  So a clip at any position whose resolved interval is
    [[s, '']] gets a job with ['ss'] set to [s] and without ['to'], just
    like a last clip with one timestamp. *)
Theorem C10_empty_end_omits_to (os_path_join : string → string → string)
    (output_dir : string) (src : source) (h : heap)
    (tasks : list invocation) :
  in_range (clip_ranges src) h →
  ∃ h' jobs,
    plan_source os_path_join output_dir src h tasks = Ok (h', tasks ++ jobs) ∧
    (∀ j name l s,
       clip_ranges src !! j = Some (name, l) → h' !! l = Some [s; ""] →
       ∃ job, jobs !! j = Some job ∧
              output_options job !! "ss" = Some s ∧
              output_options job !! "to" = None) ∧
    (∀ j name l iv,
       clip_ranges src !! j = Some (name, l) → h' !! l = Some iv →
       ∃ s e job,
         bounds (length (clip_ranges src)) j iv = Ok (s, e) ∧
         jobs !! j = Some job ∧
         output_options job !! "to" = if truthy e then Some e else None).
Proof.
  intros Hin.
  destruct (plan_source_jobs os_path_join output_dir src h tasks Hin)
    as (h' & jobs & Hrun & _ & _ & _ & _ & Hjobs).
  exists h', jobs. split; [done|]. split.
  - intros j nm l s Hc Hl.
    destruct (Hjobs j nm l [s; ""] Hc Hl) as (s' & e' & Hb & Hj).
    rewrite bounds_two in Hb. injection Hb as <- <-.
    eexists. split; [done|]. cbn [job_of build_clip output_options].
    split; [apply make_config_ss|by rewrite make_config_to].
  - intros j nm l iv Hc Hl.
    destruct (Hjobs j nm l iv Hc Hl) as (s & e & Hb & Hj).
    exists s, e. eexists. split; [done|]. split; [done|].
    cbn [job_of build_clip output_options]. apply make_config_to.
Qed.

Lemma C10_empty_end_omits_to_witness :
  let h : heap := <[0 := ["00:10:00"]]>
                    (<[1 := ["00:12:00"; ""]]>
                       (<[2 := ["00:25:00"; "00:30:00"]]> ∅)) in
  let src := Source "in.mp4" [("intro", 0); ("talk", 1); ("outro", 2)] in
  ∃ h' jobs,
    plan_source posix_join "out" src h [] = Ok (h', [] ++ jobs) ∧
    (∀ j name l s,
       clip_ranges src !! j = Some (name, l) → h' !! l = Some [s; ""] →
       ∃ job, jobs !! j = Some job ∧
              output_options job !! "ss" = Some s ∧
              output_options job !! "to" = None) ∧
    (∀ j name l iv,
       clip_ranges src !! j = Some (name, l) → h' !! l = Some iv →
       ∃ s e job,
         bounds (length (clip_ranges src)) j iv = Ok (s, e) ∧
         jobs !! j = Some job ∧
         output_options job !! "to" = if truthy e then Some e else None).
Proof.
  intros h src.
  apply (C10_empty_end_omits_to posix_join "out" src h []).
  apply well_formedb_spec. reflexivity.
Defined.

(** The middle clip of the configuration above, [talk: [00:12:00, '']], is
    planned without ['to']. *)
Example empty_end_middle_clip :
  let h : heap := <[0 := ["00:10:00"]]>
                    (<[1 := ["00:12:00"; ""]]>
                       (<[2 := ["00:25:00"; "00:30:00"]]> ∅)) in
  let src := Source "in.mp4" [("intro", 0); ("talk", 1); ("outro", 2)] in
  (λ r, match r with
        | Ok (_, jobs) =>
            (λ job, (output_options job !! "ss", output_options job !! "to"))
              <$> jobs
        | Raise _ => []
        end) (plan_source posix_join "out" src h []) =
  [(Some "00:00:00", Some "00:10:00");
   (Some "00:12:00", None);
   (Some "00:25:00", Some "00:30:00")].
Proof. vm_compute. reflexivity. Qed.

(** ** Every planned job *)

Section PlannedJobs.

Variable os_path_join : string → string → string.
Variable output_dir : string.
Variable P : invocation → Prop.
Hypothesis P_job : ∀ source_path source_ext nm s e,
  P (job_of os_path_join output_dir source_path source_ext nm s e).

Lemma plan_step_inv (source_path source_ext : string) (cr : list clip)
    (i : nat) (c : clip) (h : heap) (tasks tasks' : list invocation) :
  plan_step os_path_join output_dir source_path source_ext cr i c h tasks
    = Ok tasks' →
  ∃ nm s e,
    tasks' = tasks ++ [job_of os_path_join output_dir source_path
                         source_ext nm s e].
Proof.
  destruct c as [nm l]. unfold plan_step, deref.
  destruct (h !! l) as [iv|]; simpl; [|done].
  destruct (length_ok iv); simpl; [|done].
  destruct (bounds (length cr) i iv) as [[s e]|]; simpl; [|done].
  intros [= <-]. by exists nm, s, e.
Qed.

Lemma plan_loop_all (source_path source_ext : string) (cr : list clip)
    (h : heap) (rest : list clip) :
  ∀ (i : nat) (tasks tasks' : list invocation),
    Forall P tasks →
    plan_loop os_path_join output_dir source_path source_ext cr i rest
      h tasks = Ok tasks' →
    Forall P tasks'.
Proof.
  induction rest as [|c rest' IH]; intros i tasks tasks' HP Hrun.
  - simpl in Hrun. by injection Hrun as <-.
  - rewrite plan_loop_cons in Hrun.
    destruct (plan_step _ _ _ _ _ _ _ _ _) as [tasks1|] eqn:Hstep; [|done].
    apply plan_step_inv in Hstep as (nm & s & e & ->).
    apply (IH (S i) _ _) in Hrun; [done|].
    apply Forall_app. split; [done|]. apply Forall_singleton, P_job.
Qed.

Lemma plan_source_all (src : source) (h h' : heap)
    (tasks tasks' : list invocation) :
  Forall P tasks →
  plan_source os_path_join output_dir src h tasks = Ok (h', tasks') →
  Forall P tasks'.
Proof.
  intros HP. unfold plan_source, fix_intervals.
  destruct (fix_loop _ _ _ _) as [h1|]; simpl; [|done].
  destruct (plan_loop _ _ _ _ _ _ _ _ _) as [tasks1|] eqn:Hloop; simpl;
    [|done].
  intros [= <- <-]. by eapply plan_loop_all.
Qed.

Lemma plan_sources_all (sources : list source) :
  ∀ (h h' : heap) (tasks tasks' : list invocation),
    Forall P tasks →
    plan_sources os_path_join output_dir sources h tasks = Ok (h', tasks') →
    Forall P tasks'.
Proof.
  induction sources as [|src sources' IH]; intros h h' tasks tasks' HP Hrun.
  - simpl in Hrun. by injection Hrun as <- <-.
  - simpl in Hrun.
    destruct (plan_source _ _ src h tasks) as [[h1 tasks1]|] eqn:Hsrc;
      simpl in Hrun; [|done].
    eapply IH; [|done]. by eapply plan_source_all.
Qed.

End PlannedJobs.

Lemma main_Ok_inv (os_path_join : string → string → string)
    (os_mkdirs : string → option exn) (output_dir : string)
    (source_files : list source) (h : heap) (tasks : list invocation) :
  main os_path_join os_mkdirs output_dir source_files h = Ok tasks →
  os_makedirs os_mkdirs output_dir = Ok tt ∧
  ∃ h', plan_sources os_path_join output_dir source_files h [] =
          Ok (h', tasks).
Proof.
  unfold main. destruct (os_makedirs os_mkdirs output_dir) as [[]|];
    simpl; [|done].
  destruct (plan_sources _ _ _ _ _) as [[h' tasks']|]; simpl; [|done].
  intros [= <-]. split; [done|]. by exists h'.
Qed.

Lemma main_after_makedirs (os_path_join : string → string → string)
    (os_mkdirs : string → option exn) (output_dir : string)
    (source_files : list source) (h : heap) :
  os_makedirs os_mkdirs output_dir = Ok tt →
  main os_path_join os_mkdirs output_dir source_files h =
    match plan_sources os_path_join output_dir source_files h [] with
    | Ok (_, tasks) => Ok tasks
    | Raise e => Raise e
    end.
Proof.
  intros Hmk. unfold main. rewrite Hmk. simpl.
  by destruct (plan_sources _ _ _ _ _) as [[h' tasks']|].
Qed.

(** C9.  The invocation of [build_clip] always carries the global option
    ['y'], and every job that [main] hands to [asyncio.gather] has
    ['codec:v'] and ['codec:a'] mapped to ['copy'] in its options and is
    such an invocation. *)
Theorem C9_stream_copy_and_overwrite
    (os_path_join : string → string → string)
    (os_mkdirs : string → option exn) (output_dir : string)
    (source_files : list source) (h : heap) (tasks : list invocation) :
  main os_path_join os_mkdirs output_dir source_files h = Ok tasks →
  (∀ source_path file_output_path config,
     "y" ∈ global_options (build_clip source_path file_output_path config)) ∧
  ∀ job, job ∈ tasks →
    output_options job !! "codec:v" = Some "copy" ∧
    output_options job !! "codec:a" = Some "copy" ∧
    "y" ∈ global_options job.
Proof.
  intros Hmain. split; [intros; apply list_elem_of_singleton; done|].
  apply main_Ok_inv in Hmain as (_ & h' & Hrun).
  apply Forall_forall.
  eapply (plan_sources_all os_path_join output_dir); [|apply Forall_nil_2|done].
  intros sp ext nm s e. cbn [job_of build_clip output_options global_options].
  destruct (make_config_codecs s e) as [Hv Ha].
  split; [done|]. split; [done|]. by apply list_elem_of_singleton.
Qed.

Lemma C9_stream_copy_and_overwrite_witness :
  let h : heap := <[0 := ["00:10:00"]]> (<[1 := ["00:25:00"]]> ∅) in
  let job1 :=
    job_of posix_join "out" "in.mp4" "mp4" "intro" "00:00:00" "00:10:00" in
  let job2 := job_of posix_join "out" "in.mp4" "mp4" "outro" "00:25:00" "" in
  main posix_join (λ _, None) "out"
    [Source "in.mp4" [("intro", 0); ("outro", 1)]] h = Ok [job1; job2] ∧
  output_options job2 !! "codec:v" = Some "copy" ∧
  output_options job2 !! "codec:a" = Some "copy" ∧
  "y" ∈ global_options job2.
Proof.
  intros h job1 job2. split; [reflexivity|].
  apply (C9_stream_copy_and_overwrite posix_join (λ _, None) "out"
           [Source "in.mp4" [("intro", 0); ("outro", 1)]] h [job1; job2]).
  - reflexivity.
  - apply elem_of_cons. right. apply elem_of_cons. by left.
Defined.

(** ** What [fix_intervals] changes in the store *)

Lemma fix_step_inv (cr : list clip) (i : nat) (nm : string) (l : loc)
    (h h1 : heap) :
  fix_step cr i (nm, l) h = Ok h1 →
  h1 = h ∨ ∃ t x, h !! l = Some [t] ∧ h1 = <[l := [x; t]]> h.
Proof.
  unfold fix_step, deref. destruct (h !! l) as [iv|]; simpl; [|done].
  destruct (length_ok iv); simpl; [|done].
  destruct (Nat.eqb_spec (length iv) 1) as [H1|H1];
    [|intros [= <-]; by left].
  destruct iv as [|t [|? ?]]; simpl in H1; try lia.
  destruct (i =? 0); [intros [= <-]; right; by exists t, "00:00:00"|].
  destruct (i =? length cr - 1); [intros [= <-]; by left|].
  destruct (index cr (i - 1)) as [[pn pl]|]; simpl; [|done].
  destruct (h !! pl) as [piv|]; simpl; [|done].
  destruct (index_last piv) as [pe|]; simpl; [|done].
  intros [= <-]. right. by exists t, pe.
Qed.

Lemma fix_loop_change (cr : list clip) (rest : list clip) :
  ∀ (i : nat) (h h' : heap),
    fix_loop cr i rest h = Ok h' →
    ∀ l, h' !! l = h !! l ∨
         (l ∈ rest.*2 ∧ ∃ t x, h !! l = Some [t] ∧ h' !! l = Some [x; t]).
Proof.
  induction rest as [|[nm l] rest' IH]; intros i h h' Hrun l0.
  - simpl in Hrun. injection Hrun as <-. by left.
  - rewrite fix_loop_cons in Hrun.
    destruct (fix_step cr i (nm, l) h) as [h1|] eqn:Hstep; [|done].
    specialize (IH (S i) h1 h' Hrun l0).
    apply fix_step_inv in Hstep as [->|(t & x & Hl & ->)].
    + destruct IH as [E|(Hin & t & x & Hl & Hl')]; [by left|].
      right. split; [|by exists t, x]. simpl. by apply elem_of_cons; right.
    + destruct (decide (l0 = l)) as [->|Hne].
      * right. split; [simpl; by apply elem_of_cons; left|].
        exists t, x. split; [done|].
        rewrite lookup_insert_eq in IH.
        destruct IH as [E|(_ & t' & x' & Hc & _)]; [done|congruence].
      * rewrite lookup_insert_ne in IH by done.
        destruct IH as [E|(Hin & t' & x' & Hl0 & Hl0')]; [by left|].
        right. split; [|by exists t', x'].
        simpl. by apply elem_of_cons; right.
Qed.

(** C8, as the code has it.  [fix_intervals] works in place.  It returns
    the list it was given.  In the store, the one change it makes to an
    object is to put a timestamp in front of an interval of the sequence
    that held exactly one; every other object is left as it was.  And it
    does change its argument: the interval [[t]] of a first clip holds
    [[00:00:00, t]] after the call. *)
Theorem C8_fix_intervals_in_place (cr cr' : list clip) (h h' : heap) :
  fix_intervals cr h = Ok (h', cr') →
  cr' = cr ∧
  (∀ l, h' !! l = h !! l ∨
        (l ∈ cr.*2 ∧ ∃ t x, h !! l = Some [t] ∧ h' !! l = Some [x; t])) ∧
  (∀ name l t rest, cr = (name, l) :: rest → h !! l = Some [t] →
     h' !! l = Some ["00:00:00"; t]).
Proof.
  unfold fix_intervals.
  destruct (fix_loop cr 0 cr h) as [h1|] eqn:Hrun; simpl; [|done].
  intros [= <- <-]. split; [done|]. split.
  - by apply (fix_loop_change cr cr 0).
  - intros nm l t rest -> Hl. rewrite fix_loop_cons in Hrun.
    unfold fix_step, deref in Hrun. rewrite Hl in Hrun. simpl in Hrun.
    destruct (fix_loop_change _ _ _ _ _ Hrun l)
      as [E|(_ & t' & x' & Hc & _)].
    + by rewrite E, lookup_insert_eq.
    + rewrite lookup_insert_eq in Hc. congruence.
Qed.

Lemma C8_fix_intervals_in_place_witness :
  let h : heap := <[0 := ["00:10:00"]]> (<[1 := ["00:25:00"]]> ∅) in
  let h' : heap := <[0 := ["00:00:00"; "00:10:00"]]> h in
  let cr := [("intro", 0); ("outro", 1)] in
  fix_intervals cr h = Ok (h', cr) ∧
  h' !! 0 = Some ["00:00:00"; "00:10:00"].
Proof.
  intros h h' cr. split; [reflexivity|].
  destruct (C8_fix_intervals_in_place cr cr h h' eq_refl) as (_ & _ & Hfirst).
  apply (Hfirst "intro" 0 "00:10:00" [("outro", 1)]); reflexivity.
Defined.

(** C8, as the spec has it, fails: the call below changes the interval
    object of the clip it is given. *)
Lemma C8_fix_intervals_mutates_input :
  let h : heap := <[0 := ["00:10:00"]]> ∅ in
  ∃ h', fix_intervals [("intro", 0)] h = Ok (h', [("intro", 0)]) ∧
        h !! 0 = Some ["00:10:00"] ∧
        h' !! 0 = Some ["00:00:00"; "00:10:00"] ∧
        h' ≠ h.
Proof.
  intros h. exists (<[0 := ["00:00:00"; "00:10:00"]]> h).
  split; [reflexivity|]. split; [reflexivity|]. split; [reflexivity|].
  intros E. apply (f_equal (λ m : heap, m !! 0)) in E. discriminate E.
Qed.

(** ** An interval out of range *)

Lemma clips_first_offending (h : heap) (cs : list clip) :
  (∀ c, c ∈ cs → is_Some (h !! c.2)) →
  (∀ c, c ∈ cs → good h c) ∨
  ∃ pre nm l iv post,
    cs = pre ++ (nm, l) :: post ∧ (∀ c, c ∈ pre → good h c) ∧
    h !! l = Some iv ∧ length_ok iv = false.
Proof.
  induction cs as [|[nm l] cs IH]; intros Hval.
  - left. intros c Hc. by apply elem_of_nil in Hc.
  - destruct (Hval (nm, l)) as [iv Hiv]; [by apply elem_of_cons; left|].
    simpl in Hiv. destruct (length_ok iv) eqn:Hok.
    + destruct IH as [Hall|(pre & nm' & l' & iv' & post & -> & Hpre & Hl' & Hbad)].
      * intros c Hc. apply Hval. by apply elem_of_cons; right.
      * left. intros c [->|Hc]%elem_of_cons; [by exists iv|by apply Hall].
      * right. exists ((nm, l) :: pre), nm', l', iv', post.
        split; [done|]. split; [|done].
        intros c [->|Hc]%elem_of_cons; [by exists iv|by apply Hpre].
    + right. exists [], nm, l, iv, cs. split; [done|]. split; [|done].
      intros c Hc. by apply elem_of_nil in Hc.
Qed.

Lemma fix_loop_first_offending (cr pre post : list clip) (nm : string)
    (l : loc) (iv : list string) (h : heap) :
  cr = pre ++ (nm, l) :: post →
  (∀ c, c ∈ cr → is_Some (h !! c.2)) →
  (∀ c, c ∈ pre → good h c) →
  h !! l = Some iv → length_ok iv = false →
  fix_loop cr 0 cr h = Raise (AssertionError (ConflictInInterval iv nm)).
Proof.
  intros Hcr Hval Hpre Hl Hbad.
  assert (cr !! length pre = Some (nm, l)) as Hat.
  { rewrite Hcr. by apply list_lookup_middle. }
  pose proof (fix_loop_run cr cr 0 h eq_refl Hval (settled_upto_0 cr h))
    as Hrun.
  destruct (fix_loop cr 0 cr h) as [h'|e].
  - destruct Hrun as (_ & _ & Hgood).
    destruct (Hgood (length pre) (nm, l)) as (iv' & Hl' & Hok');
      [lia|done|]. simpl in Hl'. congruence.
  - destruct Hrun as (j & nm' & l' & iv' & _ & Hc & Hl' & Hbad' & -> & Hfirst).
    destruct (Nat.lt_total j (length pre)) as [Hlt|[->|Hgt]].
    + assert (pre !! j = Some (nm', l')) as Hin.
      { rewrite Hcr in Hc. by rewrite lookup_app_l in Hc. }
      destruct (Hpre (nm', l')) as (iv'' & Hl'' & Hok'');
        [by eapply list_elem_of_lookup_2|]. simpl in Hl''. congruence.
    + assert (nm' = nm ∧ l' = l) as [-> ->] by (split; congruence).
      by assert (iv' = iv) as -> by congruence.
    + destruct (Hfirst (length pre) (nm, l)) as (iv'' & Hl'' & Hok'');
        [lia|done|]. simpl in Hl''. congruence.
Qed.

Section Fatal.

Variable os_path_join : string → string → string.
Variable output_dir : string.

Lemma plan_source_raise (src : source) (pre post : list clip) (nm : string)
    (l : loc) (iv : list string) (h : heap) (tasks : list invocation) :
  clip_ranges src = pre ++ (nm, l) :: post →
  (∀ c, c ∈ clip_ranges src → is_Some (h !! c.2)) →
  (∀ c, c ∈ pre → good h c) →
  h !! l = Some iv → length_ok iv = false →
  plan_source os_path_join output_dir src h tasks =
    Raise (AssertionError (ConflictInInterval iv nm)).
Proof.
  intros Hcr Hval Hpre Hl Hbad. unfold plan_source, fix_intervals.
  by rewrite (fix_loop_first_offending _ pre post nm l iv h Hcr).
Qed.

Lemma plan_source_good (src : source) (h : heap) (tasks : list invocation) :
  in_range (clip_ranges src) h →
  ∃ h' tasks',
    plan_source os_path_join output_dir src h tasks = Ok (h', tasks') ∧
    grows h h'.
Proof.
  intros Hin.
  destruct (plan_source_jobs os_path_join output_dir src h tasks Hin)
    as (h' & jobs & Hrun & _ & Hg & _).
  by exists h', (tasks ++ jobs).
Qed.

Lemma plan_sources_raise (before : list source) :
  ∀ (src : source) (after : list source) (pre post : list clip)
    (nm : string) (l : loc) (iv : list string) (h : heap)
    (tasks : list invocation),
    (∀ s c, s ∈ before → c ∈ clip_ranges s → good h c) →
    clip_ranges src = pre ++ (nm, l) :: post →
    (∀ c, c ∈ clip_ranges src → is_Some (h !! c.2)) →
    (∀ c, c ∈ pre → good h c) →
    h !! l = Some iv → length_ok iv = false →
    plan_sources os_path_join output_dir (before ++ src :: after) h tasks =
      Raise (AssertionError (ConflictInInterval iv nm)).
Proof.
  induction before as [|s0 before IH];
    intros src after pre post nm l iv h tasks Hbefore Hcr Hval Hpre Hl Hbad.
  - simpl. by rewrite (plan_source_raise src pre post nm l iv h tasks).
  - simpl.
    destruct (plan_source_good s0 h tasks) as (h1 & tasks1 & Hrun & Hg).
    { intros c Hc. apply (Hbefore s0); [by apply elem_of_cons; left|done]. }
    rewrite Hrun. simpl.
    apply (IH src after pre post nm l iv h1 tasks1); try done.
    + intros s c Hs Hc. apply (grows_good h h1); [done|].
      apply (Hbefore s); [by apply elem_of_cons; right|done].
    + intros c Hc. eapply grows_is_Some; [done|by apply Hval].
    + intros c Hc. apply (grows_good h h1); [done|by apply Hpre].
    + by apply (grows_offending h h1).
Qed.

End Fatal.

Lemma sources_first_offending (h : heap) (sources : list source) :
  valid_refs h sources →
  (∃ src c, src ∈ sources ∧ c ∈ clip_ranges src ∧ offending h c) →
  ∃ before src after pre nm l iv post,
    sources = before ++ src :: after ∧
    clip_ranges src = pre ++ (nm, l) :: post ∧
    (∀ s c, s ∈ before → c ∈ clip_ranges s → good h c) ∧
    (∀ c, c ∈ pre → good h c) ∧
    h !! l = Some iv ∧ length_ok iv = false.
Proof.
  induction sources as [|s0 sources IH]; intros Hval (src & c & Hs & Hc & Hoff).
  - by apply elem_of_nil in Hs.
  - destruct (clips_first_offending h (clip_ranges s0))
      as [Hall|(pre & nm & l & iv & post & Hcr & Hpre & Hl & Hbad)].
    + intros c' Hc'. apply (Hval s0); [by apply elem_of_cons; left|done].
    + destruct IH
        as (before & s & after & pre & nm & l & iv & post
            & -> & Hcr & Hbefore & Hpre & Hl & Hbad).
      * intros s c' Hs' Hc'. apply (Hval s); [by apply elem_of_cons; right|done].
      * apply elem_of_cons in Hs as [->|Hs].
        -- by destruct (good_not_offending h c (Hall c Hc)).
        -- by exists src, c.
      * exists (s0 :: before), s, after, pre, nm, l, iv, post.
        split_and!; try done.
        intros s' c' [->|Hs']%elem_of_cons Hc'; [by apply Hall|].
        by apply (Hbefore s').
    + exists [], s0, sources, pre, nm, l, iv, post. split_and!; try done.
      intros s c' Hs'. by apply elem_of_nil in Hs'.
Qed.

Lemma valid_refsb_spec (h : heap) (sources : list source) :
  valid_refsb h sources = true → valid_refs h sources.
Proof.
  unfold valid_refsb. rewrite forallb_forall. intros Hall src c Hs Hc.
  apply list_elem_of_In in Hs. specialize (Hall src Hs).
  rewrite forallb_forall in Hall. apply list_elem_of_In in Hc.
  specialize (Hall c Hc). by apply bool_decide_eq_true in Hall.
Qed.

(** C6, as the code has it.  When some clip of the configuration has an
    interval of length 0 or of length 3 or more, [main] raises before it
    reaches [asyncio.gather], so no invocation is started.  When
    [os.makedirs] has returned on line 46, the exception is the assertion
    error of line 15, whose message carries the name and the interval of
    an offending clip: the first one in the order of the configuration,
    every clip of the source files before it and every clip before it in
    its own source file being within range.  When [os.makedirs] raises,
    its exception is the one that leaves [main]. *)
Theorem C6_bad_interval_is_fatal (os_path_join : string → string → string)
    (os_mkdirs : string → option exn) (output_dir : string)
    (source_files : list source) (h : heap)
    (src0 : source) (name0 : string) (l0 : loc) (iv0 : list string) :
  valid_refs h source_files →
  src0 ∈ source_files → (name0, l0) ∈ clip_ranges src0 →
  h !! l0 = Some iv0 → length iv0 = 0 ∨ 3 ≤ length iv0 →
  (∃ e, main os_path_join os_mkdirs output_dir source_files h = Raise e) ∧
  launched (main os_path_join os_mkdirs output_dir source_files h) = [] ∧
  (∀ e, os_makedirs os_mkdirs output_dir = Raise e →
        main os_path_join os_mkdirs output_dir source_files h = Raise e) ∧
  ∃ before src after pre name l iv post,
    source_files = before ++ src :: after ∧
    clip_ranges src = pre ++ (name, l) :: post ∧
    (∀ s c, s ∈ before → c ∈ clip_ranges s → good h c) ∧
    (∀ c, c ∈ pre → good h c) ∧
    h !! l = Some iv ∧ (length iv = 0 ∨ 3 ≤ length iv) ∧
    (os_makedirs os_mkdirs output_dir = Ok tt →
     main os_path_join os_mkdirs output_dir source_files h =
       Raise (AssertionError (ConflictInInterval iv name))).
Proof.
  intros Hval Hs0 Hc0 Hl0 Hlen0.
  destruct (sources_first_offending h source_files Hval)
    as (before & src & after & pre & nm & l & iv & post
        & Hsrcs & Hcr & Hbefore & Hpre & Hl & Hbad).
  { exists src0, (name0, l0). split; [done|]. split; [done|].
    exists iv0. split; [done|]. by apply length_ok_false. }
  assert (plan_sources os_path_join output_dir source_files h [] =
            Raise (AssertionError (ConflictInInterval iv nm))) as Hplan.
  { rewrite Hsrcs.
    rewrite (plan_sources_raise os_path_join output_dir before src after
               pre post nm l iv h []); try done.
    intros c Hc. apply (Hval src); [|done].
    rewrite Hsrcs. apply elem_of_app. right. by apply elem_of_cons; left. }
  assert (∀ e, os_makedirs os_mkdirs output_dir = Raise e →
            main os_path_join os_mkdirs output_dir source_files h = Raise e)
    as Hfail by (intros e He; unfold main; by rewrite He).
  assert (os_makedirs os_mkdirs output_dir = Ok tt →
            main os_path_join os_mkdirs output_dir source_files h =
              Raise (AssertionError (ConflictInInterval iv nm))) as Hmade.
  { intros Hmk. by rewrite (main_after_makedirs _ _ _ _ _ Hmk), Hplan. }
  assert (∃ e, main os_path_join os_mkdirs output_dir source_files h
               = Raise e) as [e He].
  { destruct (os_makedirs os_mkdirs output_dir) as [[]|e] eqn:Hmk.
    - eexists. by apply Hmade.
    - exists e. by apply Hfail. }
  split; [by exists e|]. split; [by rewrite He|]. split; [done|].
  exists before, src, after, pre, nm, l, iv, post.
  split_and!; try done. by apply length_ok_false.
Qed.

Lemma C6_bad_interval_is_fatal_witness :
  let h : heap := <[0 := ["00:10:00"]]>
                    (<[1 := ["00:12:00"; "00:20:00"; "00:21:00"]]>
                       (<[2 := []]> (<[3 := ["00:05:00"]]> ∅))) in
  let s1 := Source "a.mp4" [("intro", 0); ("talk", 1); ("outro", 2)] in
  let s2 := Source "b.mp4" [("all", 3)] in
  launched (main posix_join (λ _, None) "out" [s1; s2] h) = [] ∧
  ∃ iv name, (length iv = 0 ∨ 3 ≤ length iv) ∧
    main posix_join (λ _, None) "out" [s1; s2] h =
      Raise (AssertionError (ConflictInInterval iv name)).
Proof.
  intros h s1 s2.
  destruct (C6_bad_interval_is_fatal posix_join (λ _, None) "out" [s1; s2] h
              s1 "outro" 2 [])
    as (_ & Hnone & _ & before & src & after & pre & name & l & iv & post
        & _ & _ & _ & _ & _ & Hlen & Hmade).
  - apply valid_refsb_spec. reflexivity.
  - apply elem_of_cons. by left.
  - apply elem_of_cons. right. apply elem_of_cons. right.
    apply elem_of_cons. by left.
  - reflexivity.
  - left. reflexivity.
  - split; [exact Hnone|]. exists iv, name. split; [exact Hlen|].
    apply Hmade. reflexivity.
Defined.

(** C6, as the spec has it, fails: with an output directory that cannot
    be made, here the empty name, the run of a configuration whose one
    clip has no timestamp stops on line 46 with [FileNotFoundError], an
    error that names no clip. *)
Lemma C6_makedirs_raises_first :
  let h : heap := <[0 := []]> ∅ in
  let src := Source "a.mp4" [("clip", 0)] in
  h !! 0 = Some [] ∧
  main posix_join (λ _, None) "" [src] h = Raise FileNotFoundError ∧
  ∀ iv name, main posix_join (λ _, None) "" [src] h
             ≠ Raise (AssertionError (ConflictInInterval iv name)).
Proof.
  intros h src. split; [reflexivity|]. split; [reflexivity|].
  intros iv name H. discriminate H.
Qed.

(** The run above stops at [talk], the first clip out of range. *)
Example bad_interval_first_reported :
  let h : heap := <[0 := ["00:10:00"]]>
                    (<[1 := ["00:12:00"; "00:20:00"; "00:21:00"]]>
                       (<[2 := []]> (<[3 := ["00:05:00"]]> ∅))) in
  let s1 := Source "a.mp4" [("intro", 0); ("talk", 1); ("outro", 2)] in
  let s2 := Source "b.mp4" [("all", 3)] in
  main posix_join (λ _, None) "out" [s1; s2] h =
    Raise (AssertionError
             (ConflictInInterval ["00:12:00"; "00:20:00"; "00:21:00"] "talk")).
Proof. vm_compute. reflexivity. Qed.

(** * Further properties of [main.py] *)

(** ** The extension of the source path (line 51) *)

(** The character [c] occurs in [s]. *)
Fixpoint has_char (c : Ascii.ascii) (s : string) : bool :=
  match s with
  | EmptyString => false
  | String d r => Ascii.eqb d c || has_char c r
  end.

Lemma str_split_nonempty (sep : Ascii.ascii) (s : string) :
  str_split sep s ≠ [].
Proof.
  destruct s as [|c r]; simpl; [done|].
  destruct (Ascii.eqb c sep); [done|]. by destruct (str_split sep r).
Qed.

Lemma str_split_no_sep (sep : Ascii.ascii) (s : string) :
  has_char sep s = false → str_split sep s = [s].
Proof.
  induction s as [|c r IH]; simpl; [done|].
  destruct (Ascii.eqb c sep); simpl; [done|].
  intros H. by rewrite (IH H).
Qed.

Lemma str_split_app (sep : Ascii.ascii) (p e : string) :
  str_split sep (p +:+ String sep e) = str_split sep p ++ str_split sep e.
Proof.
  induction p as [|c r IH]; simpl.
  - by rewrite Ascii.eqb_refl.
  - destruct (Ascii.eqb c sep); [by rewrite IH|].
    rewrite IH. pose proof (str_split_nonempty sep r) as Hne.
    by destruct (str_split sep r).
Qed.

Lemma last_app_nonempty {A : Type} (l1 l2 : list A) :
  l2 ≠ [] → last (l1 ++ l2) = last l2.
Proof.
  intros Hne. destruct l2 as [|x l2 _] using rev_ind; [done|].
  by rewrite app_assoc, !last_snoc.
Qed.

(** X1.  The extension is what follows the last dot: for a source path
    [p + '.' + e] whose [e] has no dot, [source_path.split('.')[-1]] is
    [e], whatever dots [p] has. *)
Theorem source_ext_after_last_dot (p e : string) :
  has_char "." e = false → source_ext_of (p +:+ "." +:+ e) = e.
Proof.
  intros He. unfold source_ext_of.
  change (p +:+ "." +:+ e) with (p +:+ String "." e).
  rewrite str_split_app, last_app_nonempty by apply str_split_nonempty.
  by rewrite (str_split_no_sep _ _ He).
Qed.

Lemma source_ext_after_last_dot_witness :
  source_ext_of ("/films/trip.2019/day1" +:+ "." +:+ "mp4") = "mp4".
Proof. apply (source_ext_after_last_dot "/films/trip.2019/day1" "mp4"). reflexivity. Defined.

(** X2.  A source path without any dot has no extension to split off: the
    whole path is taken as the extension. *)
Theorem source_ext_without_dot (source_path : string) :
  has_char "." source_path = false → source_ext_of source_path = source_path.
Proof.
  intros H. unfold source_ext_of. by rewrite (str_split_no_sep _ _ H).
Qed.

Lemma source_ext_without_dot_witness : source_ext_of "video" = "video".
Proof. apply (source_ext_without_dot "video"). reflexivity. Defined.

(** ** When [fix_intervals] returns, and what a second call does *)

Lemma fix_step_Ok_good (cr : list clip) (i : nat) (nm : string) (l : loc)
    (h h1 : heap) :
  fix_step cr i (nm, l) h = Ok h1 → good h (nm, l) ∧ grows h h1.
Proof.
  intros Hstep.
  assert (good h (nm, l)) as Hgood.
  { unfold fix_step, deref in Hstep. unfold good. simpl.
    destruct (h !! l) as [iv|]; simpl in Hstep; [|done].
    exists iv. split; [done|]. by destruct (length_ok iv). }
  split; [done|]. destruct Hgood as (iv & Hl & Hok). simpl in Hl.
  apply fix_step_inv in Hstep as [->|(t & x & Ht & ->)];
    [apply grows_refl|].
  by apply (grows_insert h l [t]).
Qed.

Lemma fix_loop_Ok_in_range (cr rest : list clip) :
  ∀ (i : nat) (h h' : heap),
    fix_loop cr i rest h = Ok h' → in_range rest h.
Proof.
  induction rest as [|[nm l] rest' IH]; intros i h h' Hrun c Hc.
  - by apply elem_of_nil in Hc.
  - rewrite fix_loop_cons in Hrun.
    destruct (fix_step cr i (nm, l) h) as [h1|] eqn:Hstep; [|done].
    apply fix_step_Ok_good in Hstep as [Hgood Hg].
    apply elem_of_cons in Hc as [->|Hc]; [done|].
    apply (grows_good h h1); [done|]. by apply (IH (S i) h1 h').
Qed.

Lemma fix_loop_settled (cr rest : list clip) :
  ∀ (i : nat) (h : heap),
    drop i cr = rest → settled_upto cr (length cr) h →
    fix_loop cr i rest h = Ok h.
Proof.
  induction rest as [|[nm l] rest' IH]; intros i h Hd Hup; [done|].
  apply drop_cons_inv in Hd as [Hc Hd].
  assert (i < length cr) as Hi by (by eapply lookup_lt_Some).
  destruct (Hup i (nm, l) Hi Hc) as (iv & Hl & Hlen). simpl in Hl.
  rewrite fix_loop_cons.
  assert (fix_step cr i (nm, l) h = Ok h) as ->; [|by apply IH].
  unfold fix_step, deref. rewrite Hl. simpl.
  rewrite (settled_length_ok _ _ _ Hlen). simpl.
  destruct Hlen as [H2|(H1 & Hlast & H0)].
  - by rewrite H2.
  - rewrite H1. simpl. destruct (Nat.eqb_spec i 0); [done|].
    by destruct (Nat.eqb_spec i (length cr - 1)).
Qed.

(** X3.  [fix_intervals] returns normally exactly when every clip of the
    sequence holds one or two timestamps. *)
Theorem fix_intervals_returns_iff_in_range (cr : list clip) (h : heap) :
  (∃ h', fix_intervals cr h = Ok (h', cr)) ↔ in_range cr h.
Proof.
  split.
  - intros [h' Hfix]. unfold fix_intervals in Hfix.
    destruct (fix_loop cr 0 cr h) as [h1|] eqn:Hrun; [|done].
    by apply (fix_loop_Ok_in_range cr cr 0 h h1).
  - intros Hin. destruct (fix_intervals_ok cr h Hin) as (h' & Hfix & _).
    by exists h'.
Qed.

(** X4.  [fix_intervals] is idempotent: called again on the list it has
    returned, it returns normally and changes no interval. *)
Theorem fix_intervals_idempotent (cr cr' : list clip) (h h' : heap) :
  fix_intervals cr h = Ok (h', cr') →
  fix_intervals cr' h' = Ok (h', cr').
Proof.
  intros Hfix.
  assert (in_range cr h) as Hin.
  { unfold fix_intervals in Hfix.
    destruct (fix_loop cr 0 cr h) as [h1|] eqn:Hrun; [|done].
    by apply (fix_loop_Ok_in_range cr cr 0 h h1). }
  destruct (fix_intervals_ok cr h Hin) as (h'' & Hfix' & Hup & _).
  assert (h'' = h' ∧ cr' = cr) as [-> ->] by (split; congruence).
  unfold fix_intervals. by rewrite (fix_loop_settled cr cr 0 h').
Qed.

Lemma fix_intervals_idempotent_witness :
  let h : heap := <[0 := ["00:10:00"]]>
                    (<[1 := ["00:20:00"]]> (<[2 := ["00:30:00"]]> ∅)) in
  let h' : heap := <[1 := ["00:10:00"; "00:20:00"]]>
                     (<[0 := ["00:00:00"; "00:10:00"]]> h) in
  let cr := [("a", 0); ("b", 1); ("c", 2)] in
  fix_intervals cr h' = Ok (h', cr).
Proof.
  intros h h' cr. apply (fix_intervals_idempotent cr cr h h'). reflexivity.
Defined.

(** ** When [main] reaches [asyncio.gather] *)

(** The number of clips of the configuration. *)
Definition clip_count (sources : list source) : nat :=
  sum_list ((λ src, length (clip_ranges src)) <$> sources).

Section MainRuns.

Variable os_path_join : string → string → string.
Variable output_dir : string.

Lemma plan_source_Ok_inv (src : source) (h h' : heap)
    (tasks tasks' : list invocation) :
  plan_source os_path_join output_dir src h tasks = Ok (h', tasks') →
  in_range (clip_ranges src) h ∧ grows h h' ∧
  ∃ jobs, tasks' = tasks ++ jobs ∧ length jobs = length (clip_ranges src).
Proof.
  intros Hrun.
  assert (in_range (clip_ranges src) h) as Hin.
  { unfold plan_source, fix_intervals in Hrun.
    destruct (fix_loop _ 0 _ h) as [h1|] eqn:Hloop; [|done].
    by apply (fix_loop_Ok_in_range (clip_ranges src) (clip_ranges src)
                0 h h1). }
  destruct (plan_source_jobs os_path_join output_dir src h tasks Hin)
    as (h1 & jobs & Hrun' & _ & Hg & _ & Hlen & _).
  assert (h1 = h' ∧ tasks ++ jobs = tasks') as [-> <-]
    by (split; congruence).
  split; [done|]. split; [done|]. by exists jobs.
Qed.

Lemma plan_sources_Ok_inv (sources : list source) :
  ∀ (h h' : heap) (tasks tasks' : list invocation),
    plan_sources os_path_join output_dir sources h tasks = Ok (h', tasks') →
    (∀ src, src ∈ sources → in_range (clip_ranges src) h) ∧
    ∃ jobs, tasks' = tasks ++ jobs ∧ length jobs = clip_count sources.
Proof.
  induction sources as [|s0 sources IH]; intros h h' tasks tasks' Hrun.
  - simpl in Hrun. injection Hrun as <- <-. split.
    + intros src Hs. by apply elem_of_nil in Hs.
    + exists []. by rewrite app_nil_r.
  - simpl in Hrun.
    destruct (plan_source _ _ s0 h tasks) as [[h1 tasks1]|] eqn:Hsrc;
      simpl in Hrun; [|done].
    apply plan_source_Ok_inv in Hsrc as (Hin0 & Hg & jobs0 & -> & Hlen0).
    apply IH in Hrun as (Hin & jobs & -> & Hlen).
    split.
    + intros src [->|Hs]%elem_of_cons; [done|].
      intros c Hc. apply (grows_good h h1); [done|]. by apply (Hin src).
    + exists (jobs0 ++ jobs). split; [by rewrite app_assoc|].
      rewrite length_app, Hlen0, Hlen. done.
Qed.

Lemma plan_sources_in_range (sources : list source) :
  ∀ (h : heap) (tasks : list invocation),
    (∀ src, src ∈ sources → in_range (clip_ranges src) h) →
    ∃ h' tasks',
      plan_sources os_path_join output_dir sources h tasks = Ok (h', tasks').
Proof.
  induction sources as [|s0 sources IH]; intros h tasks Hin.
  - by exists h, tasks.
  - destruct (plan_source_jobs os_path_join output_dir s0 h tasks)
      as (h1 & jobs & Hrun & _ & Hg & _);
      [by apply Hin, elem_of_cons; left|].
    destruct (IH h1 (tasks ++ jobs)) as (h' & tasks' & Hrest).
    { intros src Hs c Hc. apply (grows_good h h1); [done|].
      apply (Hin src); [by apply elem_of_cons; right|done]. }
    exists h', tasks'. simpl. by rewrite Hrun.
Qed.

End MainRuns.

(** X5.  [main] reaches the call of [asyncio.gather] exactly when
    [os.makedirs] returns on line 46 and every clip of every source file
    holds one or two timestamps. *)
Theorem main_returns_iff_in_range (os_path_join : string → string → string)
    (os_mkdirs : string → option exn) (output_dir : string)
    (source_files : list source) (h : heap) :
  (∃ tasks,
     main os_path_join os_mkdirs output_dir source_files h = Ok tasks) ↔
  os_makedirs os_mkdirs output_dir = Ok tt ∧
  (∀ src, src ∈ source_files → in_range (clip_ranges src) h).
Proof.
  split.
  - intros [tasks Hmain].
    apply main_Ok_inv in Hmain as (Hmk & h' & Hrun). split; [done|].
    by apply plan_sources_Ok_inv in Hrun as [Hin _].
  - intros [Hmk Hin].
    destruct (plan_sources_in_range os_path_join output_dir source_files
                h [] Hin) as (h' & tasks' & Hrun).
    exists tasks'. by rewrite (main_after_makedirs _ _ _ _ _ Hmk), Hrun.
Qed.

(** X6.  When [main] reaches [asyncio.gather], it hands over one job for
    each clip of the configuration: as many jobs as there are clips in all
    the source files together. *)
Theorem main_one_job_per_clip (os_path_join : string → string → string)
    (os_mkdirs : string → option exn) (output_dir : string)
    (source_files : list source) (h : heap) (tasks : list invocation) :
  main os_path_join os_mkdirs output_dir source_files h = Ok tasks →
  length tasks = clip_count source_files.
Proof.
  intros Hmain. apply main_Ok_inv in Hmain as (_ & h' & Hrun).
  by apply plan_sources_Ok_inv in Hrun as (_ & jobs & -> & Hlen).
Qed.

Lemma main_one_job_per_clip_witness :
  let h : heap := <[0 := ["00:10:00"]]>
                    (<[1 := ["00:25:00"]]> (<[2 := ["00:05:00"]]> ∅)) in
  let s1 := Source "a.mp4" [("intro", 0); ("outro", 1)] in
  let s2 := Source "b.mkv" [("all", 2)] in
  length [job_of posix_join "out" "a.mp4" "mp4" "intro" "00:00:00" "00:10:00";
          job_of posix_join "out" "a.mp4" "mp4" "outro" "00:25:00" "";
          job_of posix_join "out" "b.mkv" "mkv" "all" "00:00:00" "00:05:00"]
    = clip_count [s1; s2].
Proof.
  intros h s1 s2.
  apply (main_one_job_per_clip posix_join (λ _, None) "out" [s1; s2] h).
  reflexivity.
Defined.

(** X7.  Once [fix_intervals] has returned for a source file, the loop of
    lines 57-77 over its clips does not raise: the assertion of line 59
    never fails and the unpacking [start, end = interval] of line 71 never
    raises, since by then every interval holds two timestamps or is the
    one-timestamp interval of a last clip.  The loop appends one job for
    each clip. *)
Theorem planning_after_fix_never_raises
    (os_path_join : string → string → string)
    (output_dir source_path source_ext : string) (cr cr' : list clip)
    (h h' : heap) (tasks : list invocation) :
  fix_intervals cr h = Ok (h', cr') →
  ∃ jobs,
    plan_loop os_path_join output_dir source_path source_ext cr' 0 cr'
      h' tasks = Ok (tasks ++ jobs) ∧
    length jobs = length cr'.
Proof.
  intros Hfix.
  assert (in_range cr h) as Hin.
  { unfold fix_intervals in Hfix.
    destruct (fix_loop cr 0 cr h) as [h1|] eqn:Hrun; [|done].
    by apply (fix_loop_Ok_in_range cr cr 0 h h1). }
  destruct (fix_intervals_ok cr h Hin) as (h'' & Hfix' & Hup & _).
  assert (h'' = h' ∧ cr' = cr) as [-> ->] by (split; congruence).
  destruct (plan_loop_ok os_path_join output_dir source_path source_ext
              cr h' cr Hup 0 tasks eq_refl) as (jobs & Hrun & Hlen & _).
  by exists jobs.
Qed.

Lemma planning_after_fix_never_raises_witness :
  let h : heap := <[0 := ["00:10:00"]]> (<[1 := ["00:25:00"]]> ∅) in
  let h' : heap := <[0 := ["00:00:00"; "00:10:00"]]> h in
  let cr := [("intro", 0); ("outro", 1)] in
  ∃ jobs,
    plan_loop posix_join "out" "in.mp4" "mp4" cr 0 cr h' [] = Ok ([] ++ jobs) ∧
    length jobs = length cr.
Proof.
  intros h h' cr.
  apply (planning_after_fix_never_raises posix_join "out" "in.mp4" "mp4"
           cr cr h h' []).
  reflexivity.
Defined.

(** ** The jobs of one source file *)

Lemma fix_intervals_keeps (cr cr' : list clip) (h h' : heap) (l : loc)
    (iv : list string) :
  fix_intervals cr h = Ok (h', cr') → h !! l = Some iv → length iv ≠ 1 →
  h' !! l = Some iv.
Proof.
  unfold fix_intervals.
  destruct (fix_loop cr 0 cr h) as [h1|] eqn:Hrun; simpl; [|done].
  intros [= <- <-] Hl Hlen.
  destruct (fix_loop_change cr cr 0 h h1 Hrun l)
    as [E|(_ & t & x & Ht & _)]; [by rewrite E|].
  rewrite Hl in Ht. injection Ht as ->. done.
Qed.

(** X8.  For a source file whose clips hold one or two timestamps each, the
    jobs are planned in the order of the clips; each reads the source file
    and writes [os.path.join(output_dir, name + '.' + source_ext)], where
    [name] is the name of its clip.  The name alone tells the clips of a
    source file apart: two clips of the same name are given the same
    output path. *)
Theorem plan_source_paths (os_path_join : string → string → string)
    (output_dir : string) (src : source) (h : heap)
    (tasks : list invocation) :
  in_range (clip_ranges src) h →
  ∃ h' jobs,
    plan_source os_path_join output_dir src h tasks = Ok (h', tasks ++ jobs) ∧
    input_path <$> jobs = replicate (length (clip_ranges src)) (path src) ∧
    output_path <$> jobs =
      (λ c : clip, os_path_join output_dir
                     (c.1 +:+ "." +:+ source_ext_of (path src)))
        <$> clip_ranges src.
Proof.
  intros Hin.
  destruct (plan_source_jobs os_path_join output_dir src h tasks Hin)
    as (h' & jobs & Hrun & _ & _ & Hup & Hlen & Hjobs).
  exists h', jobs. split; [done|].
  assert (∀ j job, jobs !! j = Some job →
            ∃ nm l s e, clip_ranges src !! j = Some (nm, l) ∧
              job = job_of os_path_join output_dir (path src)
                      (source_ext_of (path src)) nm s e) as Hshape.
  { intros j job Hj.
    assert (j < length (clip_ranges src)) as Hlt
      by (rewrite <- Hlen; by eapply lookup_lt_Some).
    destruct (lookup_lt_is_Some_2 _ _ Hlt) as [[nm l] Hc].
    destruct (Hup j (nm, l) Hlt Hc) as (iv & Hiv & _). simpl in Hiv.
    destruct (Hjobs j nm l iv Hc Hiv) as (s & e & _ & Hj').
    exists nm, l, s, e. split; [done|congruence]. }
  split.
  - apply (list_eq_same_length _ _ (length (clip_ranges src)));
      [by rewrite length_replicate|by rewrite length_fmap|].
    intros j x y Hj Hx Hy. rewrite list_lookup_fmap in Hx.
    destruct (jobs !! j) as [job|] eqn:Hjob; [|done].
    injection Hx as <-. apply lookup_replicate in Hy as [-> _].
    by destruct (Hshape j job Hjob) as (nm & l & s & e & _ & ->).
  - apply (list_eq_same_length _ _ (length (clip_ranges src)));
      [by rewrite length_fmap|by rewrite length_fmap|].
    intros j x y Hj Hx Hy. rewrite list_lookup_fmap in Hx.
    rewrite list_lookup_fmap in Hy.
    destruct (jobs !! j) as [job|] eqn:Hjob; [|done].
    injection Hx as <-.
    destruct (Hshape j job Hjob) as (nm & l & s & e & Hc & ->).
    rewrite Hc in Hy. by injection Hy as <-.
Qed.

Lemma plan_source_paths_witness :
  let h : heap := <[0 := ["00:10:00"]]> (<[1 := ["00:25:00"]]> ∅) in
  let src := Source "in.mp4" [("part", 0); ("part", 1)] in
  ∃ h' jobs,
    plan_source posix_join "out" src h [] = Ok (h', [] ++ jobs) ∧
    input_path <$> jobs = replicate (length (clip_ranges src)) (path src) ∧
    output_path <$> jobs =
      (λ c : clip, posix_join "out"
                     (c.1 +:+ "." +:+ source_ext_of (path src)))
        <$> clip_ranges src.
Proof.
  intros h src.
  apply (plan_source_paths posix_join "out" src h []).
  apply well_formedb_spec. reflexivity.
Defined.

(** X9.  A clip given with two timestamps [[s, e]] passes through as it
    is, wherever it stands and whether or not other clips share its
    interval object: [fix_intervals] leaves the interval alone, and the job
    of the clip has ['ss'] set to [s] and ['to'] set to [e] (no ['to'] when
    [e] is the empty string). *)
Theorem two_timestamps_pass_through
    (os_path_join : string → string → string) (output_dir : string)
    (src : source) (h : heap) (tasks : list invocation) (j : nat)
    (name s e : string) (l : loc) :
  in_range (clip_ranges src) h →
  clip_ranges src !! j = Some (name, l) → h !! l = Some [s; e] →
  ∃ h' jobs job,
    plan_source os_path_join output_dir src h tasks = Ok (h', tasks ++ jobs) ∧
    h' !! l = Some [s; e] ∧
    jobs !! j = Some job ∧
    output_options job !! "ss" = Some s ∧
    output_options job !! "to" = if truthy e then Some e else None.
Proof.
  intros Hin Hc Hl.
  destruct (plan_source_jobs os_path_join output_dir src h tasks Hin)
    as (h' & jobs & Hrun & Hfix & _ & _ & _ & Hjobs).
  assert (h' !! l = Some [s; e]) as Hl'
    by (by apply (fix_intervals_keeps _ _ _ _ _ _ Hfix Hl)).
  destruct (Hjobs j name l [s; e] Hc Hl') as (s' & e' & Hb & Hj).
  rewrite bounds_two in Hb. injection Hb as <- <-.
  exists h', jobs, (job_of os_path_join output_dir (path src)
                      (source_ext_of (path src)) name s e).
  split; [done|]. split; [done|]. split; [done|].
  cbn [job_of build_clip output_options].
  split; [apply make_config_ss|apply make_config_to].
Qed.

Lemma two_timestamps_pass_through_witness :
  let h : heap := <[0 := ["00:01:00"; "00:02:00"]]>
                    (<[1 := ["00:05:00"]]> ∅) in
  let src := Source "in.mp4" [("a", 0); ("b", 1); ("a_again", 0)] in
  ∃ h' jobs job,
    plan_source posix_join "out" src h [] = Ok (h', [] ++ jobs) ∧
    h' !! 0 = Some ["00:01:00"; "00:02:00"] ∧
    jobs !! 2 = Some job ∧
    output_options job !! "ss" = Some "00:01:00" ∧
    output_options job !! "to" = Some "00:02:00".
Proof.
  intros h src.
  apply (two_timestamps_pass_through posix_join "out" src h [] 2
           "a_again" "00:01:00" "00:02:00" 0).
  - intros c Hc. unfold good.
    repeat (apply elem_of_cons in Hc as [->|Hc]);
      [by eexists..|by apply elem_of_nil in Hc].
  - reflexivity.
  - reflexivity.
Defined.

(** ** The options of a job *)

Lemma make_config_dom (s e : string) :
  dom (make_config s e) =
    ({["codec:v"; "codec:a"; "ss"]} ∪
     (if truthy e then {["to"]} else ∅) : gset string).
Proof.
  unfold make_config. destruct (truthy e);
    rewrite !dom_insert_L, dom_empty_L; set_solver.
Qed.

(** X10.  Every job that [main] hands to [asyncio.gather] has the option
    keys ['codec:v'], ['codec:a'] and ['ss'], possibly ['to'], and no
    other; and a ['to'] option is never the empty string. *)
Theorem main_job_options (os_path_join : string → string → string)
    (os_mkdirs : string → option exn) (output_dir : string)
    (source_files : list source) (h : heap) (tasks : list invocation) :
  main os_path_join os_mkdirs output_dir source_files h = Ok tasks →
  ∀ job, job ∈ tasks →
    ({["codec:v"; "codec:a"; "ss"]} : gset string)
      ⊆ dom (output_options job) ∧
    dom (output_options job)
      ⊆ ({["codec:v"; "codec:a"; "ss"; "to"]} : gset string) ∧
    output_options job !! "to" ≠ Some "".
Proof.
  intros Hmain. apply main_Ok_inv in Hmain as (_ & h' & Hrun).
  apply Forall_forall.
  eapply (plan_sources_all os_path_join output_dir); [|apply Forall_nil_2|done].
  intros sp ext nm s e. cbn [job_of build_clip output_options].
  rewrite make_config_dom, make_config_to.
  destruct e; simpl; split_and!; (set_solver || done).
Qed.

Lemma main_job_options_witness :
  let h : heap := <[0 := ["00:10:00"; ""]]> ∅ in
  let job := job_of posix_join "out" "in.mp4" "mp4" "x" "00:10:00" "" in
  ({["codec:v"; "codec:a"; "ss"]} : gset string)
    ⊆ dom (output_options job) ∧
  dom (output_options job)
    ⊆ ({["codec:v"; "codec:a"; "ss"; "to"]} : gset string) ∧
  output_options job !! "to" ≠ Some "".
Proof.
  intros h job.
  apply (main_job_options posix_join (λ _, None) "out"
           [Source "in.mp4" [("x", 0)]] h [job]).
  - reflexivity.
  - apply elem_of_cons. by left.
Defined.

(** * [ffmpeg_setup.py]: finding or fetching the FFmpeg binary

    The methods of [FFmpegSetup] work on the file system, on [PATH] and on
    the network.  They are embedded over an interface [os_api] of the
    library calls they make: a state [world] that the calls read and
    change, and one operation for each call.  A method takes the object
    [self] and the world and gives back its result, the object as it has
    left it, and the world, or the exception it raised and the world at
    that point.  What [print] writes is left out. *)

Module FfmpegSetup.

(** An exception: its class, what [str(e)] gives, and whether it is an
    instance of [Exception] (what [except Exception] catches;
    [KeyboardInterrupt] and [SystemExit] are not). *)
Record pyexn : Type := PyExn {
  exn_class : string;
  exn_str : string;
  exn_is_Exception : bool
}.

(** [Exception(msg)]. *)
Definition Exception (msg : string) : pyexn := PyExn "Exception" msg true.

(** A call that returns or raises, without effect. *)
Inductive try (A : Type) : Type :=
  | Returns (a : A)
  | Raises (e : pyexn).
Arguments Returns {A} a.
Arguments Raises {A} e.

(** A call on the world [W]: it returns [a] or raises [e], and leaves the
    world [w]. *)
Inductive outcome (W A : Type) : Type :=
  | Done (a : A) (w : W)
  | Fail (e : pyexn) (w : W).
Arguments Done {W A} a w.
Arguments Fail {W A} e w.

Definition and_then {W A B : Type} (m : outcome W A)
    (k : A → W → outcome W B) : outcome W B :=
  match m with
  | Done a w => k a w
  | Fail e w => Fail e w
  end.

(** ** Strings and paths *)

(** [pat in s]. *)
Fixpoint contains (pat s : string) : bool :=
  String.prefix pat s ||
  match s with
  | EmptyString => false
  | String _ r => contains pat r
  end.

(** [s.endswith(suf)]. *)
Definition endswith (s suf : string) : bool :=
  String.prefix (String.rev suf) (String.rev s).

(** [name.rfind(c)], [None] standing for [-1]. *)
Fixpoint rfind (c : Ascii.ascii) (name : string) : option nat :=
  match name with
  | EmptyString => None
  | String d r =>
      match rfind c r with
      | Some k => Some (S k)
      | None => if Ascii.eqb d c then Some 0 else None
      end
  end.

(** A [pathlib.Path], as the sequence of its parts. *)
Abbreviation path := (list string).

(** [p / name], for a [name] of one part. *)
Definition pdiv (p : path) (name : string) : path := p ++ [name].

(** [PurePath.suffix] on the final part [name]:
    [i = name.rfind('.')], then [name[i:]] if [0 < i < len(name) - 1] and
    [''] otherwise. *)
Definition name_suffix (name : string) : string :=
  match rfind "." name with
  | Some i =>
      if (0 <? i) && (i <? String.length name - 1)
      then String.substring i (String.length name - i) name
      else EmptyString
  | None => EmptyString
  end.

(** [p.suffix]. *)
Definition path_suffix (p : path) : string :=
  match last p with
  | Some name => name_suffix name
  | None => EmptyString
  end.

(** ** The library calls *)

Record os_api : Type := OsApi {
  world : Type;
  (* [Path(s)] and [str(p)] *)
  Path : string → path;
  path_str : path → string;
  (* [shutil.which(cmd)] *)
  shutil_which : string → world → option string;
  (* [p.exists()] *)
  path_exists : path → world → bool;
  (* [p.mkdir(exist_ok=True)] *)
  path_mkdir : path → world → outcome world unit;
  (* [urlretrieve(url, p, reporthook=...)] *)
  urlretrieve : string → path → world → outcome world unit;
  (* [zipfile.ZipFile(archive, 'r').extractall(dir)] *)
  zip_extractall : path → path → world → outcome world unit;
  (* [tarfile.open(archive, 'r:xz').extractall(dir)] *)
  tar_extractall : path → path → world → outcome world unit;
  (* what [os.walk(dir)] yields: [(root, dirs, files)] *)
  os_walk : path → world → list (string * list string * list string);
  (* [shutil.move(src, dst)] *)
  shutil_move : string → string → world → outcome world unit;
  (* [os.chmod(p, 0o755)] *)
  os_chmod_755 : path → world → outcome world unit;
  (* [p.unlink()] *)
  path_unlink : path → world → outcome world unit
}.

(** ** The class [FFmpegSetup] *)

Record FFmpegSetup : Type := Self {
  system : string;
  machine : string;
  ffmpeg_dir : path;
  ffmpeg_path : option path
}.

Definition set_ffmpeg_path (self : FFmpegSetup) (p : path) : FFmpegSetup :=
  {| system := system self; machine := machine self;
     ffmpeg_dir := ffmpeg_dir self; ffmpeg_path := Some p |}.

(** [__init__] (lines 15-19): [system] and [machine] are
    [platform.system().lower()] and [platform.machine().lower()], and
    [script_dir] is [Path(__file__).parent]. *)
Definition init (system machine : string) (script_dir : path) : FFmpegSetup :=
  {| system := system; machine := machine;
     ffmpeg_dir := pdiv script_dir "ffmpeg_bin"; ffmpeg_path := None |}.

(** The place of the local binary that [is_ffmpeg_installed] looks at
    (lines 30-33). *)
Definition local_ffmpeg (self : FFmpegSetup) : path :=
  if String.eqb (system self) "windows"
  then pdiv (pdiv (ffmpeg_dir self) "bin") "ffmpeg.exe"
  else pdiv (ffmpeg_dir self) "ffmpeg".

(** [is_ffmpeg_installed] (lines 21-39).  It reads the world and changes
    only [self]. *)
Definition is_ffmpeg_installed (api : os_api) (self : FFmpegSetup)
    (w : world api) : bool * FFmpegSetup :=
  let ffmpeg_which := shutil_which api "ffmpeg" w in
  match ffmpeg_which with
  | Some p =>
      if truthy p then (true, set_ffmpeg_path self (Path api p))
      else if path_exists api (local_ffmpeg self) w
           then (true, set_ffmpeg_path self (local_ffmpeg self))
           else (false, self)
  | None =>
      if path_exists api (local_ffmpeg self) w
      then (true, set_ffmpeg_path self (local_ffmpeg self))
      else (false, self)
  end.

Definition url_windows : string :=
  "https://github.com/GyanD/codexffmpeg/releases/download/7.1/ffmpeg-7.1-essentials_build.zip".
Definition url_linux_amd64 : string :=
  "https://johnvansickle.com/ffmpeg/releases/ffmpeg-release-amd64-static.tar.xz".
Definition url_linux_arm64 : string :=
  "https://johnvansickle.com/ffmpeg/releases/ffmpeg-release-arm64-static.tar.xz".
Definition url_darwin : string :=
  "https://evermeet.cx/ffmpeg/getrelease/ffmpeg/zip".

(** [get_download_url] (lines 41-66). *)
Definition get_download_url (self : FFmpegSetup) : try string :=
  if String.eqb (system self) "windows" then Returns url_windows
  else if String.eqb (system self) "linux" then
    if contains "x86_64" (machine self) || contains "amd64" (machine self)
    then Returns url_linux_amd64
    else if contains "arm" (machine self) || contains "aarch64" (machine self)
    then Returns url_linux_arm64
    else Raises (Exception ("Unsupported Linux architecture: "
                              +:+ machine self))
  else if String.eqb (system self) "darwin" then
    if contains "arm" (machine self) || contains "aarch64" (machine self)
    then Returns url_darwin
    else Returns url_darwin
  else Raises (Exception ("Unsupported operating system: " +:+ system self)).

(** The archive file that [download_ffmpeg] writes (lines 86-92). *)
Definition archive_path_of (self : FFmpegSetup) (url : string) : path :=
  if endswith url ".zip" then pdiv (ffmpeg_dir self) "ffmpeg.zip"
  else if endswith url ".tar.xz" then pdiv (ffmpeg_dir self) "ffmpeg.tar.xz"
  else pdiv (ffmpeg_dir self) "ffmpeg.zip".

(** [for root, dirs, files in os.walk(...): if name in files: ...; break]:
    the first directory that holds a file [name]. *)
Definition walk_find (name : string)
    (walk : list (string * list string * list string)) : option string :=
  fst <$> (fst <$>
    find (λ entry : string * list string * list string,
            bool_decide (name ∈ entry.2)) walk).

(** [extract_archive] (lines 110-149). *)
Definition extract_archive (api : os_api) (self : FFmpegSetup)
    (archive_path : path) (w : world api) : outcome (world api) FFmpegSetup :=
  if String.eqb (path_suffix archive_path) ".zip" then
    and_then (zip_extractall api archive_path (ffmpeg_dir self) w) (λ _ w,
    if String.eqb (system self) "windows" then
      match walk_find "ffmpeg.exe" (os_walk api (ffmpeg_dir self) w) with
      | Some root =>
          let src := pdiv (Path api root) "ffmpeg.exe" in
          let dest_dir := pdiv (ffmpeg_dir self) "bin" in
          and_then (path_mkdir api dest_dir w) (λ _ w,
          let dest := pdiv dest_dir "ffmpeg.exe" in
          and_then (shutil_move api (path_str api src) (path_str api dest) w)
            (λ _ w, Done (set_ffmpeg_path self dest) w))
      | None => Done self w
      end
    else if String.eqb (system self) "darwin" then
      let ffmpeg_file := pdiv (ffmpeg_dir self) "ffmpeg" in
      if path_exists api ffmpeg_file w then
        and_then (os_chmod_755 api ffmpeg_file w) (λ _ w,
        Done (set_ffmpeg_path self ffmpeg_file) w)
      else Done self w
    else Done self w)
  else if String.eqb (path_suffix archive_path) ".xz" then
    and_then (tar_extractall api archive_path (ffmpeg_dir self) w) (λ _ w,
    match walk_find "ffmpeg" (os_walk api (ffmpeg_dir self) w) with
    | Some root =>
        let src := pdiv (Path api root) "ffmpeg" in
        let dest := pdiv (ffmpeg_dir self) "ffmpeg" in
        and_then
          (if bool_decide (src ≠ dest)
           then shutil_move api (path_str api src) (path_str api dest) w
           else Done tt w) (λ _ w,
        and_then (os_chmod_755 api dest w) (λ _ w,
        Done (set_ffmpeg_path self dest) w))
    | None => Done self w
    end)
  else Done self w.

(** [download_ffmpeg] (lines 76-108). *)
Definition download_ffmpeg (api : os_api) (self : FFmpegSetup)
    (w : world api) : outcome (world api) FFmpegSetup :=
  and_then (path_mkdir api (ffmpeg_dir self) w) (λ _ w,
  match get_download_url self with
  | Raises e => Fail e w
  | Returns url =>
      let archive_path := archive_path_of self url in
      match urlretrieve api url archive_path w with
      | Fail e w =>
          (* [except Exception as e] *)
          if exn_is_Exception e
          then Fail (Exception ("Failed to download FFmpeg: "
                                  +:+ exn_str e)) w
          else Fail e w
      | Done _ w =>
          and_then (extract_archive api self archive_path w) (λ self w,
          and_then (path_unlink api archive_path w) (λ _ w,
          Done self w))
      end
  end).

(** [setup] (lines 151-161): the path it returns, and [self]. *)
Definition setup (api : os_api) (self : FFmpegSetup) (w : world api)
    : outcome (world api) (path * FFmpegSetup) :=
  let '(installed, self) := is_ffmpeg_installed api self w in
  and_then (if negb installed then download_ffmpeg api self w
            else Done self w) (λ self w,
  match ffmpeg_path self with
  | None => Fail (Exception "Failed to set up FFmpeg") w
  | Some p => Done (p, self) w
  end).

(** [str(self.ffmpeg_path)]. *)
Definition str_ffmpeg_path (api : os_api) (self : FFmpegSetup) : string :=
  match ffmpeg_path self with
  | Some p => path_str api p
  | None => "None"
  end.

(** [get_ffmpeg_command] (lines 163-170).  A [Path] object is true; [None]
    is false. *)
Definition get_ffmpeg_command (api : os_api) (self : FFmpegSetup)
    (w : world api) : outcome (world api) (string * FFmpegSetup) :=
  match ffmpeg_path self with
  | Some _ => Done (str_ffmpeg_path api self, self) w
  | None =>
      let '(installed, self) := is_ffmpeg_installed api self w in
      if installed then Done (str_ffmpeg_path api self, self) w
      else Fail (Exception "FFmpeg not found and failed to download") w
  end.

(** [ensure_ffmpeg] (lines 173-177). *)
Definition ensure_ffmpeg (api : os_api) (system machine : string)
    (script_dir : path) (w : world api) : outcome (world api) string :=
  let setup_ := init system machine script_dir in
  and_then (setup api setup_ w) (λ '(_, setup_) w,
  and_then (get_ffmpeg_command api setup_ w) (λ '(cmd, _) w,
  Done cmd w)).

(** A machine for the examples: the world is what [shutil.which] finds and
    the files that exist; with [online] false every download fails. *)
Definition sim_api (online : bool) : os_api :=
  {| world := (option string * list path)%type;
     Path := λ s, [s];
     path_str := String.concat "/";
     shutil_which := λ _ w, w.1;
     path_exists := λ p w, bool_decide (p ∈ w.2);
     path_mkdir := λ p w, Done tt (w.1, p :: w.2);
     urlretrieve := λ url p w,
       if online then Done tt (w.1, p :: w.2)
       else Fail (PyExn "URLError" "no route to host" true) w;
     zip_extractall := λ _ _ w, Done tt w;
     tar_extractall := λ _ _ w, Done tt w;
     os_walk := λ d _, [(String.concat "/" d, [], ["ffmpeg"; "ffmpeg.exe"])];
     shutil_move := λ _ dst w, Done tt (w.1, [dst] :: w.2);
     os_chmod_755 := λ _ w, Done tt w;
     path_unlink := λ _ w, Done tt w |}.

(** ** The archive and its suffix *)

Lemma path_suffix_pdiv (p : path) (name : string) :
  path_suffix (pdiv p name) = name_suffix name.
Proof. unfold path_suffix, pdiv. by rewrite last_snoc. Qed.

Lemma archive_path_zip (self : FFmpegSetup) :
  archive_path_of self url_windows = pdiv (ffmpeg_dir self) "ffmpeg.zip" ∧
  archive_path_of self url_darwin = pdiv (ffmpeg_dir self) "ffmpeg.zip".
Proof. split; reflexivity. Qed.

Lemma archive_path_tar_xz (self : FFmpegSetup) :
  archive_path_of self url_linux_amd64
    = pdiv (ffmpeg_dir self) "ffmpeg.tar.xz" ∧
  archive_path_of self url_linux_arm64
    = pdiv (ffmpeg_dir self) "ffmpeg.tar.xz".
Proof. split; reflexivity. Qed.

Lemma archive_suffix_of_url (self : FFmpegSetup) (url : string) :
  get_download_url self = Returns url →
  path_suffix (archive_path_of self url) =
    if String.eqb (system self) "linux" then ".xz" else ".zip".
Proof.
  destruct (archive_path_zip self) as [Hwin Hmac].
  destruct (archive_path_tar_xz self) as [Hamd Harm].
  unfold get_download_url.
  destruct (String.eqb (system self) "windows") eqn:Hw.
  { apply String.eqb_eq in Hw. rewrite Hw. intros [= <-].
    by rewrite Hwin, path_suffix_pdiv. }
  destruct (String.eqb (system self) "linux") eqn:Hl.
  { destruct (contains "x86_64" _ || contains "amd64" _).
    { intros [= <-]. by rewrite Hamd, path_suffix_pdiv. }
    destruct (contains "arm" _ || contains "aarch64" _); [|done].
    intros [= <-]. by rewrite Harm, path_suffix_pdiv. }
  destruct (String.eqb (system self) "darwin") eqn:Hd; [|done].
  destruct (contains "arm" _ || contains "aarch64" _); intros [= <-];
    by rewrite Hmac, path_suffix_pdiv.
Qed.

(** X11.  For every platform for which [get_download_url] returns a URL,
    the archive that [download_ffmpeg] writes has a suffix that
    [extract_archive] acts on: ['.xz'] on Linux and ['.zip'] elsewhere.
    (The macOS URL ends in neither ['.zip'] nor ['.tar.xz']; its archive is
    named by the last branch of lines 87-92.) *)
Theorem archive_suffix_handled (self : FFmpegSetup) (url : string) :
  get_download_url self = Returns url →
  path_suffix (archive_path_of self url) =
    if String.eqb (system self) "linux" then ".xz" else ".zip".
Proof. apply archive_suffix_of_url. Qed.

Lemma archive_suffix_handled_witness :
  path_suffix (archive_path_of (init "darwin" "arm64" ["opt"; "vsplitter"])
                 url_darwin) = ".zip".
Proof.
  apply (archive_suffix_handled (init "darwin" "arm64" ["opt"; "vsplitter"])
           url_darwin).
  reflexivity.
Defined.

(** ** Where the binary comes from *)

Section Ensure.

Variable api : os_api.
Variables (system_ machine_ : string) (script_dir : path).

Local Abbreviation self0 := (init system_ machine_ script_dir).

(** [shutil.which('ffmpeg')] finds nothing that counts as true. *)
Definition not_on_path (w : world api) : Prop :=
  ∀ p, shutil_which api "ffmpeg" w = Some p → p = "".

Lemma is_installed_on_path (self : FFmpegSetup) (w : world api) (p : string) :
  shutil_which api "ffmpeg" w = Some p → p ≠ "" →
  is_ffmpeg_installed api self w = (true, set_ffmpeg_path self (Path api p)).
Proof.
  intros Hw Hp. unfold is_ffmpeg_installed. rewrite Hw. by destruct p.
Qed.

Lemma is_installed_not_on_path (self : FFmpegSetup) (w : world api) :
  not_on_path w →
  is_ffmpeg_installed api self w =
    if path_exists api (local_ffmpeg self) w
    then (true, set_ffmpeg_path self (local_ffmpeg self))
    else (false, self).
Proof.
  intros Hn. unfold is_ffmpeg_installed.
  destruct (shutil_which api "ffmpeg" w) as [p|] eqn:Hw; [|done].
  by rewrite (Hn p Hw).
Qed.

Lemma local_ffmpeg_set (self : FFmpegSetup) (p : path) :
  local_ffmpeg (set_ffmpeg_path self p) = local_ffmpeg self.
Proof. reflexivity. Qed.

(** X12.  An [ffmpeg] found on [PATH] is used as it is, on every platform:
    [ensure_ffmpeg] returns [str(Path(p))] for the [p] that
    [shutil.which] gives, and leaves the world alone (no directory made,
    nothing fetched). *)
Theorem ensure_prefers_path (w : world api) (p : string) :
  shutil_which api "ffmpeg" w = Some p → p ≠ "" →
  ensure_ffmpeg api system_ machine_ script_dir w
    = Done (path_str api (Path api p)) w.
Proof.
  intros Hw Hp. unfold ensure_ffmpeg, setup.
  by rewrite (is_installed_on_path _ w p Hw Hp).
Qed.

(** X13.  With no [ffmpeg] on [PATH] and a local binary in place
    ([ffmpeg_bin/bin/ffmpeg.exe] on Windows, [ffmpeg_bin/ffmpeg]
    elsewhere), [ensure_ffmpeg] returns the path of the local binary and
    leaves the world alone. *)
Theorem ensure_uses_local (w : world api) :
  not_on_path w →
  path_exists api (local_ffmpeg self0) w = true →
  ensure_ffmpeg api system_ machine_ script_dir w
    = Done (path_str api (local_ffmpeg self0)) w.
Proof.
  intros Hn Hex. unfold ensure_ffmpeg, setup.
  by rewrite (is_installed_not_on_path _ w Hn), Hex.
Qed.

(** X14.  With no [ffmpeg] on [PATH], no local binary and a platform for
    which [get_download_url] raises, [ensure_ffmpeg] raises that exception
    once the directory [ffmpeg_bin] is made: nothing is fetched, and the
    world is the one [mkdir] has left. *)
Theorem ensure_unsupported_platform (w w1 : world api) (e : pyexn) :
  not_on_path w →
  path_exists api (local_ffmpeg self0) w = false →
  get_download_url self0 = Raises e →
  path_mkdir api (ffmpeg_dir self0) w = Done tt w1 →
  ensure_ffmpeg api system_ machine_ script_dir w = Fail e w1.
Proof.
  intros Hn Hex Hurl Hmk. unfold ensure_ffmpeg, setup.
  rewrite (is_installed_not_on_path _ w Hn), Hex. simpl.
  unfold download_ffmpeg. rewrite Hmk. simpl. by rewrite Hurl.
Qed.

(** X15.  When [urlretrieve] raises [e], what [ensure_ffmpeg] raises
    depends on the class of [e]: an instance of [Exception] is caught on
    line 98 and [Exception('Failed to download FFmpeg: ' + str(e))] is
    raised in its place; any other exception, such as a
    [KeyboardInterrupt], leaves as it is.  In both cases nothing is
    extracted or removed after that: the world is the one the failed
    download has left. *)
Theorem ensure_download_failure (w w1 w2 : world api) (url : string)
    (e : pyexn) :
  not_on_path w →
  path_exists api (local_ffmpeg self0) w = false →
  path_mkdir api (ffmpeg_dir self0) w = Done tt w1 →
  get_download_url self0 = Returns url →
  urlretrieve api url (archive_path_of self0 url) w1 = Fail e w2 →
  ensure_ffmpeg api system_ machine_ script_dir w
    = Fail (if exn_is_Exception e
            then Exception ("Failed to download FFmpeg: " +:+ exn_str e)
            else e) w2.
Proof.
  intros Hn Hex Hmk Hurl Hget. unfold ensure_ffmpeg, setup.
  rewrite (is_installed_not_on_path _ w Hn), Hex. simpl.
  unfold download_ffmpeg. rewrite Hmk. simpl. rewrite Hurl.
  rewrite Hget. by destruct (exn_is_Exception e).
Qed.

End Ensure.

Lemma ensure_prefers_path_witness :
  ensure_ffmpeg (sim_api false) "freebsd" "riscv64" ["opt"]
    (Some "/usr/bin/ffmpeg", [])
  = Done "/usr/bin/ffmpeg" (Some "/usr/bin/ffmpeg", []).
Proof.
  apply (ensure_prefers_path (sim_api false) "freebsd" "riscv64" ["opt"]
           (Some "/usr/bin/ffmpeg", []) "/usr/bin/ffmpeg").
  - reflexivity.
  - discriminate.
Defined.

Lemma ensure_uses_local_witness :
  ensure_ffmpeg (sim_api false) "windows" "amd64" ["C:"; "vsplitter"]
    (None, [["C:"; "vsplitter"; "ffmpeg_bin"; "bin"; "ffmpeg.exe"]])
  = Done "C:/vsplitter/ffmpeg_bin/bin/ffmpeg.exe"
      (None, [["C:"; "vsplitter"; "ffmpeg_bin"; "bin"; "ffmpeg.exe"]]).
Proof.
  apply (ensure_uses_local (sim_api false) "windows" "amd64"
           ["C:"; "vsplitter"]
           (None, [["C:"; "vsplitter"; "ffmpeg_bin"; "bin"; "ffmpeg.exe"]])).
  - intros p Hp. discriminate Hp.
  - reflexivity.
Defined.

Lemma ensure_unsupported_platform_witness :
  ensure_ffmpeg (sim_api true) "freebsd" "amd64" ["opt"] (None, [])
  = Fail (Exception "Unsupported operating system: freebsd")
      (None, [["opt"; "ffmpeg_bin"]]).
Proof.
  apply (ensure_unsupported_platform (sim_api true) "freebsd" "amd64" ["opt"]
           (None, []) (None, [["opt"; "ffmpeg_bin"]])).
  - intros p Hp. discriminate Hp.
  - reflexivity.
  - reflexivity.
  - reflexivity.
Defined.

Lemma ensure_download_failure_witness :
  ensure_ffmpeg (sim_api false) "linux" "x86_64" ["opt"] (None, [])
  = Fail (Exception "Failed to download FFmpeg: no route to host")
      (None, [["opt"; "ffmpeg_bin"]]).
Proof.
  apply (ensure_download_failure (sim_api false) "linux" "x86_64" ["opt"]
           (None, []) (None, [["opt"; "ffmpeg_bin"]])
           (None, [["opt"; "ffmpeg_bin"]]) url_linux_amd64
           (PyExn "URLError" "no route to host" true)).
  - intros p Hp. discriminate Hp.
  - reflexivity.
  - reflexivity.
  - reflexivity.
  - reflexivity.
Defined.

(** ** What a download installs *)

Section Installs.

Variable api : os_api.

Lemma extract_archive_Done (self self' : FFmpegSetup) (archive_path : path)
    (w w' : world api) :
  extract_archive api self archive_path w = Done self' w' →
  self' = self ∨
  ∃ dest, self' = set_ffmpeg_path self dest ∧
    ((path_suffix archive_path = ".zip" ∧ system self = "windows" ∧
      dest = pdiv (pdiv (ffmpeg_dir self) "bin") "ffmpeg.exe") ∨
     (path_suffix archive_path = ".zip" ∧ system self = "darwin" ∧
      dest = pdiv (ffmpeg_dir self) "ffmpeg") ∨
     (path_suffix archive_path = ".xz" ∧
      dest = pdiv (ffmpeg_dir self) "ffmpeg")).
Proof.
  unfold extract_archive.
  destruct (String.eqb_spec (path_suffix archive_path) ".zip") as [Hz|Hz].
  - destruct (zip_extractall api _ _ w) as [[] w1|e w1]; simpl; [|done].
    destruct (String.eqb_spec (system self) "windows") as [Hw|Hw].
    + destruct (walk_find _ _) as [root|]; [|intros [= <- <-]; by left].
      destruct (path_mkdir api _ w1) as [[] w2|e w2]; simpl; [|done].
      destruct (shutil_move api _ _ w2) as [[] w3|e w3]; simpl; [|done].
      intros [= <- <-]. right. eexists. split; [done|]. by left.
    + destruct (String.eqb_spec (system self) "darwin") as [Hd|Hd];
        [|intros [= <- <-]; by left].
      destruct (path_exists api _ w1); [|intros [= <- <-]; by left].
      destruct (os_chmod_755 api _ w1) as [[] w2|e w2]; simpl; [|done].
      intros [= <- <-]. right. eexists. split; [done|]. right. by left.
  - destruct (String.eqb_spec (path_suffix archive_path) ".xz") as [Hx|Hx];
      [|intros [= <- <-]; by left].
    destruct (tar_extractall api _ _ w) as [[] w1|e w1]; simpl; [|done].
    destruct (walk_find _ _) as [root|]; [|intros [= <- <-]; by left].
    destruct (if bool_decide _ then _ else _) as [[] w2|e w2]; simpl; [|done].
    destruct (os_chmod_755 api _ w2) as [[] w3|e w3]; simpl; [|done].
    intros [= <- <-]. right. eexists. split; [done|]. right. by right.
Qed.

Lemma download_installs_local (self self' : FFmpegSetup) (w w' : world api) :
  download_ffmpeg api self w = Done self' w' →
  self' = self ∨ self' = set_ffmpeg_path self (local_ffmpeg self).
Proof.
  unfold download_ffmpeg.
  destruct (path_mkdir api _ w) as [[] w1|e w1]; simpl; [|done].
  destruct (get_download_url self) as [url|e] eqn:Hurl; [|done].
  pose proof (archive_suffix_of_url self url Hurl) as Hsuf.
  destruct (urlretrieve api _ _ w1) as [[] w2|e w2];
    [|by destruct (exn_is_Exception e)].
  destruct (extract_archive api self _ w2) as [self1 w3|e w3] eqn:Hex;
    simpl; [|done].
  destruct (path_unlink api _ w3) as [[] w4|e w4]; simpl; [|done].
  intros [= <- <-].
  apply extract_archive_Done in Hex
    as [->|(dest & -> & [(Hz & Hw & ->)|[(Hz & Hd & ->)|(Hx & ->)]])];
    [by left|right; f_equal..].
  - unfold local_ffmpeg. by rewrite Hw.
  - unfold local_ffmpeg. by rewrite Hd.
  - unfold local_ffmpeg. rewrite Hx in Hsuf.
    destruct (String.eqb_spec (system self) "linux") as [->|]; done.
Qed.

(** X16.  What a download installs is what the next run finds: when
    [download_ffmpeg] returns, either it has left [ffmpeg_path] as it was
    (no binary in the archive), or [ffmpeg_path] is the place where
    [is_ffmpeg_installed] looks for the local binary on this platform. *)
Theorem download_installs_where_looked_for (self self' : FFmpegSetup)
    (w w' : world api) :
  download_ffmpeg api self w = Done self' w' →
  system self' = system self ∧ machine self' = machine self ∧
  ffmpeg_dir self' = ffmpeg_dir self ∧
  (ffmpeg_path self' = ffmpeg_path self ∨
   ffmpeg_path self' = Some (local_ffmpeg self)).
Proof.
  intros [->| ->]%download_installs_local; split_and!; try done.
  - by left.
  - by right.
Qed.

Lemma setup_Done (self self' : FFmpegSetup) (p : path) (w w' : world api) :
  setup api self w = Done (p, self') w' → ffmpeg_path self' = Some p.
Proof.
  unfold setup. destruct (is_ffmpeg_installed api self w) as [inst self1].
  destruct (if negb inst then _ else _) as [self2 w2|e w2]; simpl; [|done].
  destruct (ffmpeg_path self2) as [q|] eqn:Hq; [|done].
  by intros [= <- <- <-].
Qed.

(** X17.  The command that [ensure_ffmpeg] returns is one of two: the
    [ffmpeg] that [shutil.which] has found, or the local binary of this
    platform under [ffmpeg_bin]. *)
Theorem ensure_returns_path_or_local (system_ machine_ : string)
    (script_dir : path) (w w' : world api) (cmd : string) :
  ensure_ffmpeg api system_ machine_ script_dir w = Done cmd w' →
  (∃ p, shutil_which api "ffmpeg" w = Some p ∧ p ≠ "" ∧
        cmd = path_str api (Path api p)) ∨
  cmd = path_str api (local_ffmpeg (init system_ machine_ script_dir)).
Proof.
  unfold ensure_ffmpeg, setup, is_ffmpeg_installed.
  set (self0 := init system_ machine_ script_dir).
  assert (∀ inst,
    and_then
      (and_then
         (if negb inst then download_ffmpeg api self0 w
          else Done (set_ffmpeg_path self0 (local_ffmpeg self0)) w)
         (λ self w,
            match ffmpeg_path self with
            | None => Fail (Exception "Failed to set up FFmpeg") w
            | Some p => Done (p, self) w
            end))
      (λ '(_, setup_) w,
         and_then (get_ffmpeg_command api setup_ w)
           (λ '(cmd, _) w, Done cmd w)) = Done cmd w' →
    cmd = path_str api (local_ffmpeg self0)) as Hlocal.
  { intros [|]; simpl; [by intros [= <- <-]|].
    destruct (download_ffmpeg api self0 w) as [self1 w1|e w1] eqn:Hdl;
      simpl; [|done].
    apply download_installs_local in Hdl as [->| ->]; simpl; [done|].
    by intros [= <- <-]. }
  destruct (shutil_which api "ffmpeg" w) as [p|] eqn:Hw.
  - destruct p as [|c p]; simpl truthy; cbv iota.
    + destruct (path_exists api _ w); intros H; right.
      * by apply (Hlocal true).
      * by apply (Hlocal false).
    + simpl. intros [= <- <-]. left. by exists (String c p).
  - destruct (path_exists api _ w); intros H; right.
    + by apply (Hlocal true).
    + by apply (Hlocal false).
Qed.

(** X18.  [ensure_ffmpeg] raises only what [setup] raises.  Once [setup]
    has returned, [ffmpeg_path] is set, [get_ffmpeg_command] returns it
    without looking again, and its exception ['FFmpeg not found and failed
    to download'] is not raised. *)
Theorem ensure_raises_what_setup_raises (system_ machine_ : string)
    (script_dir : path) (w w' : world api) (e : pyexn) :
  ensure_ffmpeg api system_ machine_ script_dir w = Fail e w' →
  setup api (init system_ machine_ script_dir) w = Fail e w'.
Proof.
  unfold ensure_ffmpeg.
  destruct (setup api _ w) as [[p self1] w1|e1 w1] eqn:Hsetup; simpl.
  - apply setup_Done in Hsetup. unfold get_ffmpeg_command.
    by rewrite Hsetup.
  - by intros [= <- <-].
Qed.

End Installs.

Lemma download_installs_where_looked_for_witness :
  let self := init "linux" "x86_64" ["opt"] in
  ffmpeg_path (set_ffmpeg_path self (local_ffmpeg self))
    = ffmpeg_path self ∨
  ffmpeg_path (set_ffmpeg_path self (local_ffmpeg self))
    = Some (local_ffmpeg self).
Proof.
  intros self.
  apply (download_installs_where_looked_for (sim_api true) self
           (set_ffmpeg_path self (local_ffmpeg self)) (None, [])
           (None, [["opt/ffmpeg_bin/ffmpeg"];
                   ["opt"; "ffmpeg_bin"; "ffmpeg.tar.xz"];
                   ["opt"; "ffmpeg_bin"]])).
  reflexivity.
Defined.

Lemma ensure_returns_path_or_local_witness :
  (∃ p, shutil_which (sim_api true) "ffmpeg" (None, []) = Some p ∧ p ≠ "" ∧
        "opt/ffmpeg_bin/ffmpeg" = path_str (sim_api true) (Path (sim_api true) p)) ∨
  "opt/ffmpeg_bin/ffmpeg"
    = path_str (sim_api true) (local_ffmpeg (init "linux" "x86_64" ["opt"])).
Proof.
  apply (ensure_returns_path_or_local (sim_api true) "linux" "x86_64" ["opt"]
           (None, [])
           (None, [["opt/ffmpeg_bin/ffmpeg"];
                   ["opt"; "ffmpeg_bin"; "ffmpeg.tar.xz"];
                   ["opt"; "ffmpeg_bin"]])).
  reflexivity.
Defined.

Lemma ensure_raises_what_setup_raises_witness :
  setup (sim_api false) (init "linux" "x86_64" ["opt"]) (None, [])
  = Fail (Exception "Failed to download FFmpeg: no route to host")
      (None, [["opt"; "ffmpeg_bin"]]).
Proof.
  apply (ensure_raises_what_setup_raises (sim_api false) "linux" "x86_64"
           ["opt"] (None, [])).
  reflexivity.
Defined.

End FfmpegSetup.
